(** * tri.query: the query language compiler of [lib/tri/query/__init__.py]

    A shallow embedding of the part of [tri.query] that turns the parse
    results of a query string into a Django [Q] object: the registry of
    variables built by [Query.__init__], the two parse actions
    [binary_op_as_q] and [freetext_as_q], the value-to-Q functions, and
    the reduction of connectives ([compile], [__to_rpn], [__rpn_to_q]).

    Two collaborators are external to the repository and are not
    interpreted here:
    - Django's [Q] and [F] objects.  [Q(key=value)], [&], [|] and [~]
      are kept as the constructors of a term algebra, so that compiled
      predicates remain distinguishable.
    - pyparsing.  The grammar of [Query._grammar] is represented by the
      shape of the parse results it hands to the parse actions and to
      [compile]; no character-level parsing is modelled. *)

From Stdlib Require Import ZArith Ascii String.
From stdpp Require Import base option list strings gmap.
From stdpp Require Import pretty.

Local Open Scope string_scope.
Local Open Scope list_scope.

(** ** Python values that flow through the compiler *)

(** [Variable.attr]: the module-level sentinel [MISSING], [None], or a
    string. *)
Inductive attr_value :=
| Attr_MISSING
| Attr_None
| Attr_str (s : string).

(** The values the grammar produces for the value position of a binary
    statement, together with [None] and [F(attr)], which the compiler
    itself puts into [Q] objects.  A float is carried as the literal that
    [float(t[0])] was applied to. *)
Inductive value :=
| V_None
| V_unicode (s : string)
| V_StringValue (s : string)
| V_int (z : Z)
| V_float (literal : string)
| V_date (year month day : Z)
| V_F (a : attr_value).

(** Django's [Q]: [Q()], [Q(key=v)], [left & right], [left | right]
    and [~q]. *)
Inductive Q :=
| Q_empty
| Q_kw (key : string) (v : value)
| Q_and (left_ right_ : Q)
| Q_or (left_ right_ : Q)
| Q_not (q : Q).

(** ** Exceptions *)

(** The three messages [QueryException] is raised with, as format and
    arguments. *)
Inductive message :=
| Invalid_syntax_for_query
| Unknown_value_for_variable (value_string_or_f : value) (variable_name : string)
| Unknown_variable (variable_name : string).

Inductive exception :=
| QueryException (msg : message)
| AssertionError
| IndexError
| KeyError (key : string)
| TypeError
| AttributeError
| MultipleObjectsReturned.

Inductive exc (A : Type) :=
| Ok (a : A)
| Raise (e : exception).
Arguments Ok {A} a.
Arguments Raise {A} e.

#[global] Instance exc_ret : MRet exc := λ A a, Ok a.
#[global] Instance exc_bind : MBind exc := λ A B f m,
  match m with
  | Ok a => f a
  | Raise e => Raise e
  end.
#[global] Instance exc_fmap : FMap exc := λ A B f m,
  match m with
  | Ok a => Ok (f a)
  | Raise e => Raise e
  end.

(** [assert cond]. *)
Definition assert (cond : bool) : exc unit :=
  if cond then Ok tt else Raise AssertionError.

(** ** Strings *)

(** [c.lower()] on the ASCII range. *)
Definition ascii_lower (c : ascii) : ascii :=
  let n := nat_of_ascii c in
  if (65 <=? n)%nat && (n <=? 90)%nat then ascii_of_nat (n + 32) else c.

(** [s.lower()]. *)
Fixpoint lower (s : string) : string :=
  match s with
  | EmptyString => EmptyString
  | String c r => String (ascii_lower c) (lower r)
  end.

(** [s.lstrip(c)] for a single character [c]. *)
Fixpoint lstrip (c : ascii) (s : string) : string :=
  match s with
  | EmptyString => EmptyString
  | String a r => if Ascii.eqb a c then lstrip c r else s
  end.

(** [s.rstrip(c)] for a single character [c]. *)
Fixpoint rstrip (c : ascii) (s : string) : string :=
  match s with
  | EmptyString => EmptyString
  | String a r =>
      match rstrip c r with
      | EmptyString => if Ascii.eqb a c then EmptyString else String a EmptyString
      | r' => String a r'
      end
  end.

(** [s.strip(c)]. *)
Definition strip (c : ascii) (s : string) : string := rstrip c (lstrip c s).

(** [s[1:]]. *)
Definition tail (s : string) : string :=
  match s with
  | EmptyString => EmptyString
  | String _ r => r
  end.

(** [s[:-1]]. *)
Fixpoint drop_last (s : string) : string :=
  match s with
  | EmptyString => EmptyString
  | String a EmptyString => EmptyString
  | String a r => String a (drop_last r)
  end.

(** The double quote character. *)
Definition dquote : ascii := "034"%char.

Definition startswith_quote (s : string) : bool :=
  match s with
  | String a _ => Ascii.eqb a dquote
  | EmptyString => false
  end.

Fixpoint endswith_quote (s : string) : bool :=
  match s with
  | EmptyString => false
  | String a EmptyString => Ascii.eqb a dquote
  | String _ r => endswith_quote r
  end.

(** [StringValue.__new__]: the text a [StringValue] holds for the matched
    quoted string [s]. *)
Definition StringValue (s : string) : value :=
  V_StringValue (if startswith_quote s && endswith_quote s
                 then drop_last (tail s) else s).

(** [isinstance(v, basestring)], giving the text of the string. *)
Definition basestring (v : value) : option string :=
  match v with
  | V_unicode s | V_StringValue s => Some s
  | _ => None
  end.

(** [attr + s]; anything but a string on the left raises [TypeError]. *)
Definition attr_add (a : attr_value) (s : string) : exc string :=
  match a with
  | Attr_str x => Ok (x +:+ s)
  | _ => Raise TypeError
  end.

(** [Q(attr=v)] written as a keyword dictionary; a key that is not a
    string raises [TypeError]. *)
Definition Q_kwargs (a : attr_value) (v : value) : exc Q :=
  match a with
  | Attr_str x => Ok (Q_kw x v)
  | _ => Raise TypeError
  end.

(** ** Module constants *)

Definition PRECEDENCE : gmap string Z :=
  list_to_map [("and", 3%Z); ("or", 2%Z)].

Definition Q_OP_BY_OP : gmap string string :=
  list_to_map
    [(">", "gt"); ("=>", "gte"); (">=", "gte"); ("<", "lt"); ("<=", "lte");
     ("=<", "lte"); ("=", "iexact"); (":", "icontains")].

(** [d[key]] on a dictionary with string keys. *)
Definition getitem {A} (d : gmap string A) (key : string) : exc A :=
  match d !! key with
  | Some a => Ok a
  | None => Raise (KeyError key)
  end.

(** The operators of [binary_op] in [Query._grammar]. *)
Definition binary_op : list string :=
  ["=>"; "=<"; "="; "<"; ">"; ">="; "<="; ":"; "!="; "!:"].

(** ** Variables *)

(** The outcome of [model.objects.get(lookup=value)]: the primary key of
    the one instance found, or one of the two exceptions of [get].  The
    table behind it belongs to the ORM. *)
Inductive get_result :=
| Get_instance (pk : value)
| Get_ObjectDoesNotExist
| Get_MultipleObjectsReturned.

Record Model := {
  objects_get : string → value → get_result;
}.

(** The fields of [VariableBase] that the compiler reads.  [model] and
    [value_to_q_lookup] default to [None]. *)
Record VariableBase := {
  name : string;
  attr : attr_value;
  op_to_q_op : string → exc string;
  freetext : bool;
  model : option Model;
  value_to_q_lookup : option string;
}.

(** [Variable] (the bare word is reserved here, hence the underscore): a
    variable with its [value_to_q] function.  The function is called
    with the variable itself; the functions of the module read only the
    fields of [VariableBase]. *)
Record Variable_ := {
  base :> VariableBase;
  value_to_q : VariableBase → string → value → exc (option Q);
}.

(** The default of [op_to_q_op]: [lambda op: Q_OP_BY_OP[op]]. *)
Definition default_op_to_q_op (op : string) : exc string :=
  getitem Q_OP_BY_OP op.

(** [default_value_to_q]. *)
Definition default_value_to_q
    (variable : VariableBase) (op : string) (value_string_or_f : value)
    : exc (option Q) :=
  match attr variable with
  | Attr_None => Ok (Some Q_empty)
  | _ =>
      let negated := bool_decide (op ∈ ["!="; "!:"]) in
      let op := if negated then tail op else op in
      r ← (if bool_decide (lower <$> basestring value_string_or_f = Some "null")
           then Q_kwargs (attr variable) V_None
           else
             prefix ← attr_add (attr variable) "__";
             q_op ← op_to_q_op variable op;
             Ok (Q_kw (prefix +:+ q_op) value_string_or_f));
      Ok (Some (if negated then Q_not r else r))
  end.

(** [choice_queryset_value_to_q], the [value_to_q] of
    [Variable.choice_queryset]. *)
Definition choice_queryset_value_to_q
    (variable : VariableBase) (op : string) (value_string_or_f : value)
    : exc (option Q) :=
  _ ← assert (bool_decide (op = "="));
  match attr variable with
  | Attr_None => Ok (Some Q_empty)
  | _ =>
      match model variable with
      | None => Raise AttributeError
      | Some m =>
          match value_to_q_lookup variable with
          | None => Raise TypeError
          | Some lookup =>
              match objects_get m lookup value_string_or_f with
              | Get_ObjectDoesNotExist => Ok None
              | Get_MultipleObjectsReturned => Raise MultipleObjectsReturned
              | Get_instance pk =>
                  key ← attr_add (attr variable) "__pk";
                  Ok (Some (Q_kw key pk))
              end
          end
      end
  end.

(** The operator map of [Variable.case_sensitive]:
    [{'=': 'exact', ':': 'contains'}.get(op) or Q_OP_BY_OP[op]]. *)
Definition case_sensitive_op_to_q_op (op : string) : exc string :=
  match (list_to_map [("=", "exact"); (":", "contains")] : gmap string string) !! op with
  | Some s => Ok s
  | None => getitem Q_OP_BY_OP op
  end.

(** [Variable.__init__] on keyword arguments that include [attr], as
    [merged] passes them: a truthy [name] replaces an [attr] that is
    [MISSING]. *)
Definition Variable_init (v : Variable_) : Variable_ :=
  {| base := {| name := name v;
                attr := match attr v with
                        | Attr_MISSING =>
                            if bool_decide (name v = "") then Attr_MISSING
                            else Attr_str (name v)
                        | a => a
                        end;
                op_to_q_op := op_to_q_op v;
                freetext := freetext v;
                model := model v;
                value_to_q_lookup := value_to_q_lookup v |};
     value_to_q := value_to_q v |}.

(** [merged(variable, name=name)]: the fields of [variable] with [name]
    replaced, passed to [Variable.__init__] again. *)
Definition merged_name (variable : Variable_) (new_name : string) : Variable_ :=
  Variable_init
    {| base := {| name := new_name;
                  attr := attr variable;
                  op_to_q_op := op_to_q_op variable;
                  freetext := freetext variable;
                  model := model variable;
                  value_to_q_lookup := value_to_q_lookup variable |};
       value_to_q := value_to_q variable |}.

(** ** The registry: [Query.__init__] *)

Record Query := {
  variables : list Variable_;
  variable_by_name : gmap string Variable_;
}.

(** The [variables] argument of [Query.__init__]: [None], the items of a
    dictionary (the declarative case), or a list. *)
Inductive variables_arg :=
| Variables_None
| Variables_dict (items : list (string * Variable_))
| Variables_list (l : list Variable_).

(** [{variable.name: variable for variable in variables}]: a later
    variable replaces an earlier one under the same key. *)
Definition by_name (vs : list Variable_) : gmap string Variable_ :=
  foldl (λ d (variable : Variable_), <[name variable := variable]> d) ∅ vs.

(** [Query.__init__]. *)
Definition Query_init (arg : variables_arg) : exc Query :=
  _ ← assert (match arg with Variables_None => false | _ => true end);
  let vs := match arg with
            | Variables_dict items => (λ item : string * Variable_, merged_name item.2 item.1) <$> items
            | Variables_list l => l
            | Variables_None => []
            end in
  Ok {| variables := vs; variable_by_name := by_name vs |}.

(** ** The parse actions *)

(** The value that [Query.binary_op_as_q] hands to [value_to_q]: a string
    that is not a [StringValue] and whose lower case is a key of
    [variable_by_name] becomes [F(attr)] of the variable under that key. *)
Definition value_string_or_f (self : Query) (value_string_or_variable_name : value)
    : value :=
  match value_string_or_variable_name with
  | V_unicode s =>
      match (variable_by_name self !! lower s : option Variable_) with
      | Some other => V_F (attr other)
      | None => value_string_or_variable_name
      end
  | _ => value_string_or_variable_name
  end.

(** [Query.binary_op_as_q] on the three tokens of a binary statement.  A
    variable found in [variable_by_name] is truthy. *)
Definition binary_op_as_q
    (self : Query) (variable_name op : string)
    (value_string_or_variable_name : value) : exc Q :=
  match (variable_by_name self !! lower variable_name : option Variable_) with
  | Some variable =>
      let value_string_or_f := value_string_or_f self value_string_or_variable_name in
      result ← value_to_q variable variable op value_string_or_f;
      match result with
      | None =>
          Raise (QueryException
                   (Unknown_value_for_variable value_string_or_f (name variable)))
      | Some q => Ok q
      end
  | None => Raise (QueryException (Unknown_variable variable_name))
  end.

(** [reduce(function, seq)] without an initial value. *)
Definition reduce {A} (f : A → A → A) (l : list A) : exc A :=
  match l with
  | [] => Raise TypeError
  | x :: r => Ok (foldl f x r)
  end.

(** [Query.freetext_as_q] on the tokens of a free text statement. *)
Definition freetext_as_q (self : Query) (token : list string) : exc Q :=
  _ ← assert (existsb (λ v : Variable_, freetext v) (variables self));
  _ ← assert (bool_decide (length token = 1%nat));
  let token := strip dquote (default "" (head token)) in
  qs ← mapM (λ variable : Variable_,
               prefix ← attr_add (attr variable) "__";
               q_op ← op_to_q_op variable ":";
               Ok (Q_kw (prefix +:+ q_op) (V_unicode token)))
            (filter (λ variable : Variable_, freetext variable = true) (variables self));
  reduce Q_or qs.

(** ** Reduction of connectives: [__to_rpn] and [__rpn_to_q] *)

(** An entry of [items] in [Query.compile]: a [Q] object or one of the
    strings ['and'] and ['or']. *)
Inductive item :=
| Item_Q (q : Q)
| Item_str (s : string).

(** The [while stack:] loop of [__to_rpn] for a connective of precedence
    [p1].  The top of the Python list [stack] is the head here. *)
Fixpoint pop_operators (p1 : Z) (stack : list (string * Z)) (result_q : list item)
    : list (string * Z) * list item :=
  match stack with
  | [] => (stack, result_q)
  | (t2, p2) :: rest =>
      if bool_decide (p1 ≤ p2)%Z
      then pop_operators p1 rest (result_q ++ [Item_str t2])
      else (stack, result_q)
  end.

(** The body of the [for token in tokens:] loop of [__to_rpn].  No item
    is [None], so the assertion of the loop holds. *)
Definition to_rpn_step (state : list item * list (string * Z)) (token : item)
    : list item * list (string * Z) :=
  let (result_q, stack) := state in
  match token with
  | Item_Q _ => (result_q ++ [token], stack)
  | Item_str s =>
      match PRECEDENCE !! s with
      | Some p1 =>
          let (stack, result_q) := pop_operators p1 stack result_q in
          (result_q, (s, p1) :: stack)
      | None => (result_q, stack)
      end
  end.

(** [Query.__to_rpn]. *)
Definition to_rpn (tokens : list item) : list item :=
  if bool_decide (length tokens = 1%nat) then tokens
  else
    let (result_q, stack) := foldl to_rpn_step ([], []) tokens in
    result_q ++ ((λ entry, Item_str entry.1) <$> stack).

(** The [for each in tokens:] loop of [__rpn_to_q]; [stack.pop()] on an
    empty list raises [IndexError]. *)
Fixpoint rpn_loop (stack : list Q) (tokens : list item) : exc (list Q) :=
  match tokens with
  | [] => Ok stack
  | Item_Q q :: tokens => rpn_loop (q :: stack) tokens
  | Item_str op :: tokens =>
      match stack with
      | right_ :: left_ :: stack =>
          rpn_loop ((if bool_decide (op = "and") then Q_and left_ right_
                     else Q_or left_ right_) :: stack) tokens
      | _ => Raise IndexError
      end
  end.

(** [Query.__rpn_to_q]. *)
Definition rpn_to_q (tokens : list item) : exc Q :=
  stack ← rpn_loop [] tokens;
  match stack with
  | [q] => Ok q
  | _ => Raise AssertionError
  end.

(** ** [Query.compile] *)

(** A token of a [ParseResults]: a nested [ParseResults], a [Q] left by a
    parse action, or a string. *)
#[local] Unset Elimination Schemes.
Inductive token :=
| Tok_ParseResults (tokens : list token)
| Tok_Q (q : Q)
| Tok_str (s : string).
#[local] Set Elimination Schemes.

(** What one round of the [for token in tokens:] loop of [Query.compile]
    appends to [items]; the nested loop is [compile] on the inner tokens. *)
Fixpoint compile_token (tok : token) : exc (list item) :=
  match tok with
  | Tok_ParseResults tokens =>
      items ← (fix loop (tokens : list token) : exc (list item) :=
                 match tokens with
                 | [] => Ok []
                 | tok :: tokens =>
                     new ← compile_token tok;
                     items ← loop tokens;
                     Ok (new ++ items)
                 end) tokens;
      q ← rpn_to_q (to_rpn items);
      Ok [Item_Q q]
  | Tok_Q q => Ok [Item_Q q]
  | Tok_str s =>
      Ok (if bool_decide (s ∈ ["and"; "or"]) then [Item_str s] else [])
  end.

(** The [items] that the loop of [Query.compile] builds. *)
Fixpoint compile_items (tokens : list token) : exc (list item) :=
  match tokens with
  | [] => Ok []
  | tok :: tokens =>
      new ← compile_token tok;
      items ← compile_items tokens;
      Ok (new ++ items)
  end.

(** [Query.compile]. *)
Definition compile (tokens : list token) : exc Q :=
  items ← compile_items tokens;
  rpn_to_q (to_rpn items).

(** ** The parse results of [Query._grammar] *)

(** The keywords [and_] and [or_]; a caseless [Keyword] yields the string
    it was defined with. *)
Inductive connective := And | Or.

Definition keyword (k : connective) : string :=
  match k with
  | And => "and"
  | Or => "or"
  end.

(** A match of [where_condition]: an [operator_statement], or a
    [where_expression] between parentheses.  A match of
    [where_expression] is a condition followed by connectives and
    conditions; its tokens are not grouped.  [A] is what stands for a
    statement: the matched tokens, or the result of its parse action. *)
#[local] Unset Elimination Schemes.
Inductive where_condition (A : Type) :=
| Statement (a : A)
| Parenthesized (first : where_condition A)
                (more : list (connective * where_condition A)).
#[local] Set Elimination Schemes.
Arguments Statement {A} a.
Arguments Parenthesized {A} first more.

Definition where_expression (A : Type) : Type :=
  where_condition A * list (connective * where_condition A).

(** The tokens of [Group(operator_statement | ('(' + where_expression + ')'))]
    once the parse actions have run. *)
Fixpoint where_condition_token (c : where_condition Q) : token :=
  match c with
  | Statement q => Tok_ParseResults [Tok_Q q]
  | Parenthesized first more =>
      Tok_ParseResults
        (Tok_str "(" ::
         where_condition_token first ::
         (fix tokens (more : list (connective * where_condition Q)) : list token :=
            match more with
            | [] => [Tok_str ")"]
            | (k, c) :: more =>
                Tok_str (keyword k) :: where_condition_token c :: tokens more
            end) more)
  end.

(** The tokens of [where_condition + ZeroOrMore((and_ | or_) + where_expression)]. *)
Fixpoint more_tokens (more : list (connective * where_condition Q)) : list token :=
  match more with
  | [] => []
  | (k, c) :: more =>
      Tok_str (keyword k) :: where_condition_token c :: more_tokens more
  end.

Definition where_expression_tokens (e : where_expression Q) : list token :=
  where_condition_token e.1 :: more_tokens e.2.

(** The tokens of [query_statement], [Group(where_expression)]. *)
Definition query_statement_tokens (e : where_expression Q) : list token :=
  [Tok_ParseResults (where_expression_tokens e)].

(** The tokens of the two statements, as handed to their parse actions. *)
Inductive statement :=
| Binary_operator_statement (variable_name op : string) (value_string : value)
| Free_text_statement (quoted : string).

Definition operator_statement (self : Query) (s : statement) : exc Q :=
  match s with
  | Binary_operator_statement variable_name op value_string =>
      binary_op_as_q self variable_name op value_string
  | Free_text_statement quoted => freetext_as_q self [quoted]
  end.

(** The parse actions run as the statements are matched, from left to
    right; the first exception leaves the parser, and the [Q] that an
    action returns takes the place of the tokens of its statement. *)
Fixpoint run_actions {A B} (action : A → exc B) (c : where_condition A)
    : exc (where_condition B) :=
  match c with
  | Statement a => b ← action a; Ok (Statement b)
  | Parenthesized first more =>
      first' ← run_actions action first;
      more' ← (fix go (more : list (connective * where_condition A)) :=
                 match more with
                 | [] => Ok []
                 | (k, c) :: more =>
                     c' ← run_actions action c;
                     more' ← go more;
                     Ok ((k, c') :: more')
                 end) more;
      Ok (Parenthesized first' more')
  end.

Fixpoint run_actions_more {A B} (action : A → exc B)
    (more : list (connective * where_condition A))
    : exc (list (connective * where_condition B)) :=
  match more with
  | [] => Ok []
  | (k, c) :: more =>
      c' ← run_actions action c;
      more' ← run_actions_more action more;
      Ok ((k, c') :: more')
  end.

Definition run_actions_expression {A B} (action : A → exc B)
    (e : where_expression A) : exc (where_expression B) :=
  first' ← run_actions action e.1;
  more' ← run_actions_more action e.2;
  Ok (first', more').

(** What [Query.parse] finds in a query string: nothing but white space,
    no match of the grammar ([parseString] raises [ParseException]), or a
    match of [where_expression], whose statements are yet to go through
    their parse actions. *)
Inductive query_string :=
| Blank
| No_match
| Match (e : where_expression statement).

(** [Query.parse]. *)
Definition parse (self : Query) (s : query_string) : exc Q :=
  match s with
  | Blank => Ok Q_empty
  | No_match => Raise (QueryException Invalid_syntax_for_query)
  | Match e =>
      tokens ← query_statement_tokens <$> run_actions_expression (operator_statement self) e;
      compile tokens
  end.

(** ** The reading of connectives that the specification describes *)

(** The reading to compare [compile] with, written after the
    specification: ['and'] binds tighter than ['or'].  A sequence of
    operands joined by connectives is cut at every ['or']; [conjunctions]
    gives the conjunction of the first run of operands and the
    conjunctions of the runs that follow. *)
Fixpoint conjunctions (current : Q) (more : list (connective * Q)) : Q * list Q :=
  match more with
  | [] => (current, [])
  | (And, q) :: more => conjunctions (Q_and current q) more
  | (Or, q) :: more =>
      let (c, cs) := conjunctions q more in (current, c :: cs)
  end.

(** The disjunction of the conjunctions. *)
Definition and_before_or (first : Q) (more : list (connective * Q)) : Q :=
  let (c, cs) := conjunctions first more in foldl Q_or c cs.

(** A parenthesized expression is read on its own and stands as one
    operand where it occurs. *)
Fixpoint reading (c : where_condition Q) : Q :=
  match c with
  | Statement q => q
  | Parenthesized first more =>
      and_before_or (reading first)
        ((λ entry : connective * where_condition Q, (entry.1, reading entry.2)) <$> more)
  end.

Definition reading_expression (e : where_expression Q) : Q :=
  and_before_or (reading e.1)
    ((λ entry : connective * where_condition Q, (entry.1, reading entry.2)) <$> e.2).

(** ** Queries and registries used in examples *)

(** The query string that consists of one statement. *)
Definition single (s : statement) : query_string := Match (Statement s, []).

(** [Variable.text(name=n, attr=a, freetext=ft)]: the other fields at the
    defaults of [VariableBase]. *)
Definition Variable_text (n : string) (a : attr_value) (ft : bool) : Variable_ :=
  {| base := {| name := n; attr := a; op_to_q_op := default_op_to_q_op;
                freetext := ft; model := None; value_to_q_lookup := None |};
     value_to_q := default_value_to_q |}.

(** [Variable.choice_queryset(name=n, attr=a, model=m)]. *)
Definition Variable_choice_queryset (n : string) (a : attr_value) (m : Model)
    : Variable_ :=
  {| base := {| name := n; attr := a; op_to_q_op := λ op, Ok "exact";
                freetext := false; model := Some m;
                value_to_q_lookup := Some "name" |};
     value_to_q := choice_queryset_value_to_q |}.

(** [Query(variables=l)] when the construction succeeds. *)
Definition registry (l : list Variable_) : Query :=
  {| variables := l; variable_by_name := by_name l |}.

(** A reference table without rows. *)
Definition empty_table : Model := {| objects_get := λ lookup v, Get_ObjectDoesNotExist |}.

Definition quoted (s : string) : string := String dquote (s +:+ String dquote "").

(** A registry with the one variable [price], and the same without an
    attribute. *)
Definition price_registry : Query :=
  registry [Variable_text "price" (Attr_str "price") false].

Definition price_without_attr : Variable_ := Variable_text "price" Attr_None false.

(** A registry whose variable [city] is looked up in an empty reference
    table, and the same without an attribute. *)
Definition city : Variable_ :=
  Variable_choice_queryset "city" (Attr_str "city") empty_table.

Definition city_without_attr : Variable_ :=
  Variable_choice_queryset "city" Attr_None empty_table.

(** Two variables declared under the same name. *)
Definition first_a : Variable_ := Variable_text "a" (Attr_str "first") false.
Definition second_a : Variable_ := Variable_text "a" (Attr_str "second") false.

(** A variable whose declared name has an upper case letter. *)
Definition Price : Variable_ := Variable_text "Price" (Attr_str "price") false.

Definition cost : Variable_ := Variable_text "cost" (Attr_str "cost") false.


(** [key] is the keyword of the predicate that [freetext_as_q] builds for
    [variable]: its attribute, two underscores, and what its operator map
    gives for [:]. *)
Definition freetext_key (variable : Variable_) (key : string) : Prop :=
  ∃ a q_op,
    attr variable = Attr_str a ∧
    op_to_q_op variable ":" = Ok q_op ∧
    key = (a +:+ "__") +:+ q_op.

(** Free text variables [a] and [b] beside [cost], and a free text
    variable without attribute. *)
Definition a_text : Variable_ := Variable_text "a" (Attr_str "a") true.
Definition b_text : Variable_ := Variable_text "b" (Attr_str "b") true.
Definition text_without_attr : Variable_ := Variable_text "notes" Attr_None true.

(** The statements of a condition, from left to right. *)
Fixpoint statements {A} (c : where_condition A) : list A :=
  match c with
  | Statement a => [a]
  | Parenthesized first more =>
      statements first ++
      (fix go (more : list (connective * where_condition A)) : list A :=
         match more with
         | [] => []
         | (_, c) :: more => statements c ++ go more
         end) more
  end.

Fixpoint statements_more {A} (more : list (connective * where_condition A)) : list A :=
  match more with
  | [] => []
  | (_, c) :: more => statements c ++ statements_more more
  end.

Definition statements_expression {A} (e : where_expression A) : list A :=
  statements e.1 ++ statements_more e.2.

(** ** Auxiliary definitions for the proofs *)

(** What [run_actions] returns, in terms of the statements: a result when
    every action has one, and otherwise an exception that the action of
    one of the statements raises. *)
Definition actions_outcome {A B C} (action : A → exc B) (outcome : exc C)
    (l : list A) : Prop :=
  match outcome with
  | Ok _ => Forall (λ a, ∃ b, action a = Ok b) l
  | Raise err => Exists (λ a, action a = Raise err) l
  end.

(** Operands and connectives in infix order, as [compile] collects them
    after the first operand. *)
Fixpoint infix_items (more : list (connective * Q)) : list item :=
  match more with
  | [] => []
  | (k, q) :: more => Item_str (keyword k) :: Item_Q q :: infix_items more
  end.

Definition precedence_of (k : connective) : Z :=
  match k with
  | And => 3
  | Or => 2
  end.

(** The pending disjunction, if any, joined with the conjunction under
    construction. *)
Definition join (disjunction : option Q) (conjunction : Q) : Q :=
  match disjunction with
  | None => conjunction
  | Some d => Q_or d conjunction
  end.

(** What remains to be read after a prefix whose value is the pending
    [disjunction] and the current [conjunction]. *)
Definition finish (disjunction : option Q) (conjunction : Q)
    (more : list (connective * Q)) : Q :=
  let (c, cs) := conjunctions conjunction more in
  foldl Q_or (join disjunction c) cs.

(** The states of [__to_rpn] between two operands: the output so far
    evaluates to the operand stack shown, and the operator stack holds
    at most one ['or'] below at most one ['and']. *)
Inductive rpn_state : list item → list (string * Z) → option Q → Q → Prop :=
| state_operand result_q a :
    rpn_loop [] result_q = Ok [a] →
    rpn_state result_q [] None a
| state_and result_q a b :
    rpn_loop [] result_q = Ok [b; a] →
    rpn_state result_q [("and", 3%Z)] None (Q_and a b)
| state_or result_q a b :
    rpn_loop [] result_q = Ok [b; a] →
    rpn_state result_q [("or", 2%Z)] (Some a) b
| state_or_and result_q a b c :
    rpn_loop [] result_q = Ok [c; b; a] →
    rpn_state result_q [("and", 3%Z); ("or", 2%Z)] (Some a) (Q_and b c).

(** The readings of the operands of an expression. *)
Definition readings (more : list (connective * where_condition Q))
    : list (connective * Q) :=
  (λ entry : connective * where_condition Q, (entry.1, reading entry.2)) <$> more.

(** Induction on a [where_condition] with the conditions of the list at
    hand. *)
Fixpoint where_condition_ind {A} (P : where_condition A → Prop)
    (HStatement : ∀ a, P (Statement a))
    (HParenthesized : ∀ first more,
        P first → Forall (λ entry, P entry.2) more → P (Parenthesized first more))
    (c : where_condition A) : P c :=
  match c with
  | Statement a => HStatement a
  | Parenthesized first more =>
      HParenthesized first more
        (where_condition_ind P HStatement HParenthesized first)
        ((fix go (more : list (connective * where_condition A))
            : Forall (λ entry, P entry.2) more :=
            match more with
            | [] => List.Forall_nil _
            | entry :: more =>
                List.Forall_cons _ entry more
                  (where_condition_ind P HStatement HParenthesized entry.2)
                  (go more)
            end) more)
  end.


(** ** Definitions for the further properties *)

(** The [Q] objects of a sequence of items, in order, and its connectives:
    the strings that are keys of [PRECEDENCE]. *)
Definition operands (items : list item) : list Q :=
  omap (λ i, match i with Item_Q q => Some q | Item_str _ => None end) items.

Definition connectives (items : list item) : list string :=
  omap (λ i, match i with
             | Item_str s =>
                 if bool_decide (is_Some (PRECEDENCE !! s)) then Some s else None
             | Item_Q _ => None
             end) items.

(** Every string of the sequence is a key of [PRECEDENCE]. *)
Definition connectives_only (items : list item) : Prop :=
  Forall (λ i, match i with
               | Item_str s => is_Some (PRECEDENCE !! s)
               | Item_Q _ => True
               end) items.

(** The exception of the first action that raises, going through [l] from
    the left. *)
Fixpoint first_raise {A B} (action : A → exc B) (l : list A) : option exception :=
  match l with
  | [] => None
  | a :: l =>
      match action a with
      | Raise err => Some err
      | Ok _ => first_raise action l
      end
  end.

(** The exception that an outcome carries, if it is one. *)
Definition raised {A} (outcome : exc A) : option exception :=
  match outcome with
  | Ok _ => None
  | Raise err => Some err
  end.

(** ** The formatter of values: [value_to_query_string_value_string] *)

(** A value of a form field as the formatter tells them apart: a [bool],
    an [int] or [long], a [float] with the text [str] gives for it, or any
    other object with the text that [%s] gives for it. *)
Inductive form_value :=
| FV_bool (b : bool)
| FV_int (z : Z)
| FV_float (text : string)
| FV_other (text : string).

(** [value_to_query_string_value_string]. *)
Definition value_to_query_string_value_string (v : form_value) : string :=
  match v with
  | FV_bool true => "1"
  | FV_bool false => "0"
  | FV_int z => pretty z
  | FV_float text => text
  | FV_other text => String dquote (text +:+ String dquote "")
  end.

(** A reference table in which every lookup finds the row of key 7, and
    one in which every lookup finds several rows. *)
Definition one_row_table : Model :=
  {| objects_get := λ lookup v, Get_instance (V_int 7) |}.

Definition ambiguous_table : Model :=
  {| objects_get := λ lookup v, Get_MultipleObjectsReturned |}.

(** A variable declared in a class body without [attr]. *)
Definition declared_without_attr : Variable_ := Variable_text "" Attr_MISSING false.
(** * Properties *)

(** Closed decidable goals, by evaluation. *)
Ltac by_evaluation :=
  match goal with
  | |- ?P => refine (bool_decide_unpack P _); vm_compute; exact I
  end.

(** ** The reading of connectives on small sequences *)

Example and_before_or_4 (a b c d : Q) :
  and_before_or a [(Or, b); (And, c); (Or, d)] = Q_or (Q_or a (Q_and b c)) d.
Proof. reflexivity. Qed.

Example and_before_or_left_nested (a b c d : Q) :
  and_before_or a [(And, b); (And, c); (Or, d)] = Q_or (Q_and (Q_and a b) c) d.
Proof. reflexivity. Qed.

Example to_rpn_or_and (a b c : Q) :
  to_rpn [Item_Q a; Item_str "or"; Item_Q b; Item_str "and"; Item_Q c]
  = [Item_Q a; Item_Q b; Item_Q c; Item_str "and"; Item_str "or"].
Proof. vm_compute; reflexivity. Qed.

(** ** Shunting yard and postfix evaluation *)

Lemma PRECEDENCE_keyword k : PRECEDENCE !! keyword k = Some (precedence_of k).
Proof. destruct k; vm_compute; reflexivity. Qed.

Lemma to_rpn_step_keyword result_q stack k :
  to_rpn_step (result_q, stack) (Item_str (keyword k)) =
  let (stack', result_q') := pop_operators (precedence_of k) stack result_q in
  (result_q', (keyword k, precedence_of k) :: stack').
Proof. unfold to_rpn_step. rewrite PRECEDENCE_keyword. reflexivity. Qed.

Lemma rpn_loop_app tokens1 tokens2 stack :
  rpn_loop stack (tokens1 ++ tokens2) =
  rpn_loop stack tokens1 ≫= λ stack', rpn_loop stack' tokens2.
Proof.
  revert stack. induction tokens1 as [|each tokens1 IH]; intros stack; [done|].
  destruct each as [q|op]; simpl; [apply IH|].
  destruct stack as [|right_ [|left_ stack]]; done.
Qed.

Lemma finish_And d c q more :
  finish d c ((And, q) :: more) = finish d (Q_and c q) more.
Proof. reflexivity. Qed.

Lemma finish_Or d c q more :
  finish d c ((Or, q) :: more) = finish (Some (join d c)) q more.
Proof.
  unfold finish. simpl. destruct (conjunctions q more) as [c' cs]. reflexivity.
Qed.

Ltac rpn_run H :=
  repeat (rewrite rpn_loop_app, ?H; simpl); try reflexivity.

Lemma rpn_state_step result_q stack d c k q :
  rpn_state result_q stack d c →
  ∃ result_q' stack',
    foldl to_rpn_step (result_q, stack) [Item_str (keyword k); Item_Q q]
    = (result_q', stack') ∧
    rpn_state result_q' stack'
      (match k with And => d | Or => Some (join d c) end)
      (match k with And => Q_and c q | Or => q end).
Proof.
  intros Hstate. cbn [foldl]. rewrite to_rpn_step_keyword.
  destruct Hstate as [r a H|r a b H|r a b H|r a b c H], k; simpl;
    eexists _, _; (split; [reflexivity|]); constructor; rpn_run H.
Qed.

Lemma rpn_state_flush result_q stack d c :
  rpn_state result_q stack d c →
  rpn_to_q (result_q ++ ((λ entry, Item_str entry.1) <$> stack)) = Ok (join d c).
Proof.
  unfold rpn_to_q.
  destruct 1 as [r a H|r a b H|r a b H|r a b c H]; simpl; rpn_run H.
Qed.

Lemma to_rpn_loop_correct more : ∀ result_q stack d c,
  rpn_state result_q stack d c →
  ∃ result_q' stack',
    foldl to_rpn_step (result_q, stack) (infix_items more) = (result_q', stack') ∧
    rpn_to_q (result_q' ++ ((λ entry, Item_str entry.1) <$> stack'))
    = Ok (finish d c more).
Proof.
  induction more as [|[k q] more IH]; intros result_q stack d c Hstate.
  - eexists _, _. split; [reflexivity|]. by apply rpn_state_flush.
  - destruct (rpn_state_step _ _ _ _ k q Hstate) as (r1 & s1 & Hstep & Hstate1).
    change (infix_items ((k, q) :: more))
      with ([Item_str (keyword k); Item_Q q] ++ infix_items more).
    rewrite foldl_app, Hstep.
    destruct (IH _ _ _ _ Hstate1) as (r2 & s2 & Hloop & Hresult).
    eexists _, _. split; [exact Hloop|]. rewrite Hresult.
    destruct k; by rewrite ?finish_And, ?finish_Or.
Qed.

(** [__to_rpn] followed by [__rpn_to_q] reads an infix sequence with
    ['and'] before ['or']. *)
Lemma rpn_to_q_to_rpn first more :
  rpn_to_q (to_rpn (Item_Q first :: infix_items more)) = Ok (and_before_or first more).
Proof.
  unfold to_rpn. destruct more as [|[k q] more]; [reflexivity|].
  rewrite bool_decide_eq_false_2 by (simpl; lia).
  destruct (to_rpn_loop_correct ((k, q) :: more) [Item_Q first] [] None first)
    as (r & s & Hloop & Hresult); [by constructor|].
  change (foldl to_rpn_step ([], []) (Item_Q first :: infix_items ((k, q) :: more)))
    with (foldl to_rpn_step ([Item_Q first], []) (infix_items ((k, q) :: more))).
  rewrite Hloop. exact Hresult.
Qed.

(** ** [compile] on the parse results of the grammar *)

Lemma compile_token_ParseResults tokens :
  compile_token (Tok_ParseResults tokens) = q ← compile tokens; Ok [Item_Q q].
Proof.
  unfold compile. simpl.
  match goal with |- ?l ≫= _ = _ => assert (l = compile_items tokens) as -> end.
  { induction tokens as [|tok tokens IH]; simpl; [done|]. by rewrite IH. }
  by destruct (compile_items tokens).
Qed.

Lemma where_condition_token_Parenthesized first more :
  where_condition_token (Parenthesized first more) =
  Tok_ParseResults
    (Tok_str "(" :: where_condition_token first :: more_tokens more ++ [Tok_str ")"]).
Proof.
  simpl. do 3 f_equal.
  induction more as [|[k c] more IH]; simpl; [done|]. by rewrite IH.
Qed.

Lemma compile_token_keyword k :
  compile_token (Tok_str (keyword k)) = Ok [Item_str (keyword k)].
Proof. by destruct k. Qed.

Lemma compile_items_more more rest :
  Forall (λ entry : connective * where_condition Q,
            compile_token (where_condition_token entry.2)
            = Ok [Item_Q (reading entry.2)]) more →
  compile_items (more_tokens more ++ rest) =
  items ← compile_items rest; Ok (infix_items (readings more) ++ items).
Proof.
  induction 1 as [|[k c] more Hc _ IH].
  - simpl. by destruct (compile_items rest).
  - cbn [more_tokens app compile_items snd] in *.
    rewrite compile_token_keyword, Hc, IH. simpl.
    by destruct (compile_items rest).
Qed.

Lemma compile_expression_tokens first more rest :
  compile_token (where_condition_token first) = Ok [Item_Q (reading first)] →
  Forall (λ entry : connective * where_condition Q,
            compile_token (where_condition_token entry.2)
            = Ok [Item_Q (reading entry.2)]) more →
  compile (where_condition_token first :: more_tokens more ++ rest) =
  items ← compile_items rest;
  rpn_to_q (to_rpn (Item_Q (reading first) :: infix_items (readings more) ++ items)).
Proof.
  intros Hfirst Hmore. unfold compile. cbn [compile_items].
  rewrite Hfirst, (compile_items_more _ _ Hmore). simpl.
  by destruct (compile_items rest).
Qed.

Lemma compile_open_parenthesis tokens :
  compile (Tok_str "(" :: tokens) = compile tokens.
Proof.
  unfold compile. cbn [compile_items].
  change (compile_token (Tok_str "(")) with (Ok [] : exc (list item)).
  simpl. by destruct (compile_items tokens).
Qed.

Lemma compile_items_close_parenthesis : compile_items [Tok_str ")"] = Ok [].
Proof. reflexivity. Qed.

Lemma compile_token_where_condition c :
  compile_token (where_condition_token c) = Ok [Item_Q (reading c)].
Proof.
  induction c as [q|first more IHfirst IHmore] using where_condition_ind.
  - reflexivity.
  - rewrite where_condition_token_Parenthesized, compile_token_ParseResults.
    rewrite compile_open_parenthesis.
    rewrite (compile_expression_tokens _ _ _ IHfirst IHmore).
    rewrite compile_items_close_parenthesis. simpl.
    rewrite app_nil_r, rpn_to_q_to_rpn. reflexivity.
Qed.

(** [compile] on the tokens of a whole query. *)
Lemma compile_query_statement (e : where_expression Q) :
  compile (query_statement_tokens e) = Ok (reading_expression e).
Proof.
  destruct e as [first more]. unfold query_statement_tokens, compile.
  cbn [compile_items]. rewrite compile_token_ParseResults.
  unfold where_expression_tokens. cbn [fst snd].
  rewrite <- (app_nil_r (more_tokens more)).
  rewrite compile_expression_tokens;
    [|apply compile_token_where_condition
     |apply Forall_forall; intros; apply compile_token_where_condition].
  cbn [compile_items]. simpl. rewrite app_nil_r, rpn_to_q_to_rpn. reflexivity.
Qed.

(** C1. For every query matched by the grammar, [compile] reads the
    connectives with ['and'] binding tighter than ['or'], and reads a
    parenthesized expression on its own before the expression around it.
    In particular [p1 or p2 and p3] compiles to [OR(p1, AND(p2, p3))] and
    [(p1 or p2) and p3] compiles to [AND(OR(p1, p2), p3)]. *)
Theorem compile_and_binds_tighter_than_or :
  (∀ e : where_expression Q,
      compile (query_statement_tokens e) = Ok (reading_expression e)) ∧
  (∀ p1 p2 p3 : Q,
      compile (query_statement_tokens
                 (Statement p1, [(Or, Statement p2); (And, Statement p3)]))
      = Ok (Q_or p1 (Q_and p2 p3))) ∧
  (∀ p1 p2 p3 : Q,
      compile (query_statement_tokens
                 (Parenthesized (Statement p1) [(Or, Statement p2)],
                  [(And, Statement p3)]))
      = Ok (Q_and (Q_or p1 p2) p3)).
Proof.
  split; [exact compile_query_statement|].
  split; intros; rewrite compile_query_statement; reflexivity.
Qed.

(** ** [parse] on a matched query *)

Lemma run_actions_Parenthesized {A B} (action : A → exc B) first more :
  run_actions action (Parenthesized first more) =
  first' ← run_actions action first;
  more' ← run_actions_more action more;
  Ok (Parenthesized first' more').
Proof.
  simpl. destruct (run_actions action first) as [first'|]; [|done]. simpl.
  match goal with |- ?l ≫= _ = _ => assert (l = run_actions_more action more) as -> end.
  { induction more as [|[k c] more IH]; simpl; [done|]. by rewrite IH. }
  reflexivity.
Qed.

Lemma parse_Match self e :
  parse self (Match e) =
  e' ← run_actions_expression (operator_statement self) e;
  Ok (reading_expression e').
Proof.
  unfold parse.
  destruct (run_actions_expression (operator_statement self) e) as [e'|]; [|done].
  apply compile_query_statement.
Qed.

(** A query of one statement compiles to what the parse action of the
    statement returns. *)
Lemma parse_single self s : parse self (single s) = operator_statement self s.
Proof.
  unfold single. rewrite parse_Match. unfold run_actions_expression. simpl.
  by destruct (operator_statement self s).
Qed.

(** The two queries of C1 from statements to predicates: [a:1 or a:2 and
    a:3] and [(a:1 or a:2) and a:3]. *)
Example parse_or_and :
  parse (registry [a_text])
    (Match (Statement (Binary_operator_statement "a" ":" (V_int 1)),
            [(Or, Statement (Binary_operator_statement "a" ":" (V_int 2)));
             (And, Statement (Binary_operator_statement "a" ":" (V_int 3)))]))
  = Ok (Q_or (Q_kw "a__icontains" (V_int 1))
             (Q_and (Q_kw "a__icontains" (V_int 2)) (Q_kw "a__icontains" (V_int 3)))).
Proof. vm_compute; reflexivity. Qed.

Example parse_parenthesized_or_and :
  parse (registry [a_text])
    (Match (Parenthesized (Statement (Binary_operator_statement "a" ":" (V_int 1)))
              [(Or, Statement (Binary_operator_statement "a" ":" (V_int 2)))],
            [(And, Statement (Binary_operator_statement "a" ":" (V_int 3)))]))
  = Ok (Q_and (Q_or (Q_kw "a__icontains" (V_int 1)) (Q_kw "a__icontains" (V_int 2)))
              (Q_kw "a__icontains" (V_int 3))).
Proof. vm_compute; reflexivity. Qed.

(** [price > 10 and (a: "socks" or price < 2)]. *)
Example parse_price_and_text :
  parse (registry [Variable_text "price" (Attr_str "price") false; a_text])
    (Match (Statement (Binary_operator_statement "price" ">" (V_int 10)),
            [(And,
              Parenthesized
                (Statement (Binary_operator_statement "a" ":" (StringValue (quoted "socks"))))
                [(Or, Statement (Binary_operator_statement "price" "<" (V_int 2)))])]))
  = Ok (Q_and (Q_kw "price__gt" (V_int 10))
              (Q_or (Q_kw "a__icontains" (V_StringValue "socks"))
                    (Q_kw "price__lt" (V_int 2)))).
Proof. vm_compute; reflexivity. Qed.

(** ** Parse actions and the statements of a query *)

Lemma statements_Parenthesized {A} (first : where_condition A) more :
  statements (Parenthesized first more) = statements first ++ statements_more more.
Proof.
  simpl. f_equal. induction more as [|[k c] more IH]; simpl; [done|]. by rewrite IH.
Qed.

Lemma run_actions_more_outcome {A B} (action : A → exc B) more :
  Forall (λ entry : connective * where_condition A,
            actions_outcome action (run_actions action entry.2) (statements entry.2))
         more →
  actions_outcome action (run_actions_more action more) (statements_more more).
Proof.
  induction 1 as [|[k c] more Hc _ IH]; simpl in *; [by constructor|].
  destruct (run_actions action c) as [c'|err]; simpl in *.
  - destruct (run_actions_more action more) as [more'|err]; simpl in *.
    + by apply Forall_app.
    + apply Exists_app. by right.
  - apply Exists_app. by left.
Qed.

Lemma run_actions_outcome {A B} (action : A → exc B) c :
  actions_outcome action (run_actions action c) (statements c).
Proof.
  induction c as [a|first more IHfirst IHmore] using where_condition_ind.
  - simpl. destruct (action a) as [b|err] eqn:Haction; simpl.
    + repeat constructor. by exists b.
    + by constructor.
  - rewrite run_actions_Parenthesized, statements_Parenthesized.
    apply run_actions_more_outcome in IHmore.
    destruct (run_actions action first) as [first'|err]; simpl in *.
    + destruct (run_actions_more action more) as [more'|err]; simpl in *.
      * by apply Forall_app.
      * apply Exists_app. by right.
    + apply Exists_app. by left.
Qed.

Lemma run_actions_expression_outcome {A B} (action : A → exc B) e :
  actions_outcome action (run_actions_expression action e) (statements_expression e).
Proof.
  destruct e as [first more]. unfold run_actions_expression, statements_expression.
  cbn [fst snd].
  pose proof (run_actions_outcome action first) as Hfirst.
  assert (actions_outcome action (run_actions_more action more) (statements_more more))
    as Hmore.
  { apply run_actions_more_outcome, Forall_forall. intros; apply run_actions_outcome. }
  destruct (run_actions action first) as [first'|err]; simpl in *.
  - destruct (run_actions_more action more) as [more'|err]; simpl in *.
    + by apply Forall_app.
    + apply Exists_app. by right.
  - apply Exists_app. by left.
Qed.

(** Compiling a matched query returns a predicate when every parse
    action returns one, and otherwise raises what one of them raises. *)
Lemma parse_Match_outcome self e :
  actions_outcome (operator_statement self) (parse self (Match e))
    (statements_expression e).
Proof.
  rewrite parse_Match.
  pose proof (run_actions_expression_outcome (operator_statement self) e) as Houtcome.
  by destruct (run_actions_expression (operator_statement self) e).
Qed.

(** A statement whose parse action raises keeps the query from compiling. *)
Lemma parse_raises_with_statement self e s err :
  s ∈ statements_expression e →
  operator_statement self s = Raise err →
  ∃ err', parse self (Match e) = Raise err'
          ∧ Exists (λ s', operator_statement self s' = Raise err')
              (statements_expression e).
Proof.
  intros Hin Hraise. pose proof (parse_Match_outcome self e) as Houtcome.
  destruct (parse self (Match e)) as [q|err']; simpl in Houtcome.
  - rewrite Forall_forall in Houtcome. destruct (Houtcome _ Hin) as [q' Hq'].
    congruence.
  - by exists err'.
Qed.

(** ** Binary statements *)

Lemma binary_op_as_q_found self variable_name op v (variable : Variable_) :
  variable_by_name self !! lower variable_name = Some variable →
  binary_op_as_q self variable_name op v =
  result ← value_to_q variable variable op (value_string_or_f self v);
  match result with
  | None =>
      Raise (QueryException
               (Unknown_value_for_variable (value_string_or_f self v) (name variable)))
  | Some q => Ok q
  end.
Proof. intros Hfound. unfold binary_op_as_q. by rewrite Hfound. Qed.

(** A lookup in a reference table that finds nothing makes
    [choice_queryset_value_to_q] return [None]. *)
Lemma choice_queryset_value_to_q_no_match variable v m lookup :
  attr variable ≠ Attr_None →
  model variable = Some m →
  value_to_q_lookup variable = Some lookup →
  objects_get m lookup v = Get_ObjectDoesNotExist →
  choice_queryset_value_to_q variable "=" v = Ok None.
Proof.
  intros Hattr Hmodel Hlookup Hget. unfold choice_queryset_value_to_q.
  rewrite Hmodel, Hlookup, Hget. by destruct (attr variable).
Qed.

(** C2. When the [value_to_q] function of the variable that a binary
    statement names returns [None] for the value of the statement,
    compiling the statement raises [QueryException] with the message
    [Unknown value "..." for variable "..."], which carries the value and
    the name of the variable; and no query that contains the statement
    compiles to a predicate. *)
Theorem unresolved_value_raises
    self variable_name op v (variable : Variable_) :
  variable_by_name self !! lower variable_name = Some variable →
  value_to_q variable variable op (value_string_or_f self v) = Ok None →
  parse self (single (Binary_operator_statement variable_name op v))
  = Raise (QueryException
             (Unknown_value_for_variable (value_string_or_f self v) (name variable))) ∧
  (∀ e, Binary_operator_statement variable_name op v ∈ statements_expression e →
        ∃ err, parse self (Match e) = Raise err).
Proof.
  intros Hfound Hnone.
  assert (operator_statement self (Binary_operator_statement variable_name op v)
          = Raise (QueryException
                     (Unknown_value_for_variable (value_string_or_f self v)
                        (name variable)))) as Haction.
  { simpl. by rewrite (binary_op_as_q_found _ _ _ _ _ Hfound), Hnone. }
  split; [by rewrite parse_single|].
  intros e Hin.
  destruct (parse_raises_with_statement _ _ _ _ Hin Haction) as (err & Hraise & _).
  by exists err.
Qed.

Lemma unresolved_value_raises_witness :
  variable_by_name (registry [city]) !! lower "City" = Some city ∧
  value_to_q city city "="
    (value_string_or_f (registry [city]) (V_StringValue "Atlantis")) = Ok None ∧
  parse (registry [city])
    (single (Binary_operator_statement "City" "=" (V_StringValue "Atlantis")))
  = Raise (QueryException
             (Unknown_value_for_variable (V_StringValue "Atlantis") "city")).
Proof.
  assert (variable_by_name (registry [city]) !! lower "City" = Some city) as Hfound
    by (vm_compute; reflexivity).
  assert (value_to_q city city "="
            (value_string_or_f (registry [city]) (V_StringValue "Atlantis")) = Ok None)
    as Hnone by (vm_compute; reflexivity).
  split; [exact Hfound|]. split; [exact Hnone|].
  exact (proj1 (unresolved_value_raises (registry [city]) "City" "="
                  (V_StringValue "Atlantis") city Hfound Hnone)).
Defined.

(** A string that is no key of [variable_by_name] reaches [value_to_q]
    unchanged, and so does a quoted string. *)
Lemma value_string_or_f_literal self s :
  variable_by_name self !! lower s = None →
  value_string_or_f self (V_unicode s) = V_unicode s.
Proof. intros Hnone. unfold value_string_or_f. by rewrite Hnone. Qed.

Lemma default_value_to_q_null variable op s a :
  attr variable = Attr_str a →
  lower s = "null" →
  default_value_to_q variable op (V_unicode s) =
  Ok (Some (if bool_decide (op ∈ ["!="; "!:"])
            then Q_not (Q_kw a V_None) else Q_kw a V_None)).
Proof.
  intros Hattr Hnull. unfold default_value_to_q. rewrite Hattr. simpl.
  rewrite Hnull.
  rewrite (bool_decide_eq_true_2 (Some "null" = Some "null")) by reflexivity.
  reflexivity.
Qed.

(** C3, as amended. For every registered variable that has an attribute
    and the default [value_to_q], in a registry without a variable under
    the key [null], a binary statement whose value is the unquoted
    literal [null] in any casing compiles to [Q(attr=None)] for the
    operators that are not negated, and to its negation for [!=] and
    [!:]. *)
Theorem null_literal_compiles_to_none
    self variable_name op s (variable : Variable_) a :
  variable_by_name self !! lower variable_name = Some variable →
  value_to_q variable = default_value_to_q →
  attr variable = Attr_str a →
  lower s = "null" →
  variable_by_name self !! "null" = None →
  parse self (single (Binary_operator_statement variable_name op (V_unicode s)))
  = Ok (if bool_decide (op ∈ ["!="; "!:"])
        then Q_not (Q_kw a V_None) else Q_kw a V_None).
Proof.
  intros Hfound Hdefault Hattr Hnull Hkey. rewrite parse_single. simpl.
  rewrite (binary_op_as_q_found _ _ _ _ _ Hfound), Hdefault.
  rewrite value_string_or_f_literal by (by rewrite Hnull).
  by rewrite (default_value_to_q_null _ _ _ _ Hattr Hnull).
Qed.

Lemma null_literal_compiles_to_none_witness :
  parse price_registry
    (single (Binary_operator_statement "Price" ">=" (V_unicode "NULL")))
  = Ok (Q_kw "price" V_None).
Proof.
  apply (null_literal_compiles_to_none price_registry "Price" ">=" "NULL"
           (Variable_text "price" (Attr_str "price") false) "price");
    vm_compute; reflexivity.
Defined.

(** C3 as stated fails for a negated operator: [price != null] compiles
    to the negation of [Q(price=None)], not to [Q(price=None)]. *)
Lemma null_literal_negated_counterexample :
  "!=" ∈ binary_op ∧
  parse price_registry
    (single (Binary_operator_statement "price" "!=" (V_unicode "null")))
  = Ok (Q_not (Q_kw "price" V_None)) ∧
  parse price_registry
    (single (Binary_operator_statement "price" "!=" (V_unicode "null")))
  ≠ Ok (Q_kw "price" V_None).
Proof.
  assert (parse price_registry
            (single (Binary_operator_statement "price" "!=" (V_unicode "null")))
          = Ok (Q_not (Q_kw "price" V_None))) as Heval by (vm_compute; reflexivity).
  split; [by_evaluation|]. split; [exact Heval|].
  rewrite Heval. discriminate.
Qed.

(** ** Negated operators *)

Lemma default_value_to_q_negated variable base_op v :
  base_op ∈ ["="; ":"] →
  attr variable ≠ Attr_None →
  default_value_to_q variable ("!" +:+ base_op) v =
  (r ← default_value_to_q variable base_op v; Ok (Q_not <$> (r : option Q))).
Proof.
  intros Hop Hattr. unfold default_value_to_q.
  assert (bool_decide ("!" +:+ base_op ∈ ["!="; "!:"]) = true) as ->.
  { apply bool_decide_eq_true_2.
    apply elem_of_cons in Hop as [->|Hop]; [by left|].
    apply list_elem_of_singleton in Hop as ->. by right; left. }
  assert (bool_decide (base_op ∈ ["!="; "!:"]) = false) as ->.
  { apply bool_decide_eq_false_2.
    apply elem_of_cons in Hop as [->|Hop]; [by_evaluation|].
    apply list_elem_of_singleton in Hop as ->. by_evaluation. }
  change (tail ("!" +:+ base_op)) with base_op.
  destruct (attr variable) as [| |a]; [| done |].
  - destruct (bool_decide _); reflexivity.
  - destruct (bool_decide _); [reflexivity|]. simpl.
    destruct (op_to_q_op variable base_op); reflexivity.
Qed.

(** C9, as amended. For every registered variable that has the default
    [value_to_q] and an attribute that is not [None], compiling the
    statement with [!=] gives the negation of what compiling the
    statement with [=] gives, or raises the same exception; likewise
    [!:] and [:]. *)
Theorem negated_operator_is_complement
    self variable_name base_op v (variable : Variable_) :
  base_op ∈ ["="; ":"] →
  variable_by_name self !! lower variable_name = Some variable →
  value_to_q variable = default_value_to_q →
  attr variable ≠ Attr_None →
  parse self (single (Binary_operator_statement variable_name ("!" +:+ base_op) v))
  = Q_not <$> parse self (single (Binary_operator_statement variable_name base_op v)).
Proof.
  intros Hop Hfound Hdefault Hattr. rewrite !parse_single. simpl.
  rewrite !(binary_op_as_q_found _ _ _ _ _ Hfound), Hdefault.
  rewrite (default_value_to_q_negated _ _ _ Hop Hattr).
  destruct (default_value_to_q variable base_op (value_string_or_f self v))
    as [[q|]|]; reflexivity.
Qed.

Lemma negated_operator_is_complement_witness :
  parse price_registry (single (Binary_operator_statement "price" "!=" (V_int 5)))
  = Q_not <$>
    parse price_registry (single (Binary_operator_statement "price" "=" (V_int 5))).
Proof.
  apply (negated_operator_is_complement price_registry "price" "=" (V_int 5)
           (Variable_text "price" (Attr_str "price") false)).
  - by_evaluation.
  - vm_compute; reflexivity.
  - reflexivity.
  - discriminate.
Defined.

(** C9 as stated fails for a variable without attribute, although its
    operator map handles [=]: both [price != 5] and [price = 5] compile
    to [Q()]. *)
Lemma negated_operator_counterexample :
  op_to_q_op price_without_attr "=" = Ok "iexact" ∧
  parse (registry [price_without_attr])
    (single (Binary_operator_statement "price" "=" (V_int 5))) = Ok Q_empty ∧
  parse (registry [price_without_attr])
    (single (Binary_operator_statement "price" "!=" (V_int 5))) = Ok Q_empty ∧
  parse (registry [price_without_attr])
    (single (Binary_operator_statement "price" "!=" (V_int 5)))
  ≠ Q_not <$> parse (registry [price_without_attr])
                (single (Binary_operator_statement "price" "=" (V_int 5))).
Proof.
  assert (parse (registry [price_without_attr])
            (single (Binary_operator_statement "price" "=" (V_int 5))) = Ok Q_empty)
    as Hbase by (vm_compute; reflexivity).
  assert (parse (registry [price_without_attr])
            (single (Binary_operator_statement "price" "!=" (V_int 5))) = Ok Q_empty)
    as Hnegated by (vm_compute; reflexivity).
  split; [vm_compute; reflexivity|]. split; [exact Hbase|]. split; [exact Hnegated|].
  rewrite Hbase, Hnegated. discriminate.
Qed.

(** ** Variables without attribute *)

(** C10, as amended. For every registered variable whose attribute is
    [None], a binary statement that names it compiles to [Q()] without an
    exception under [default_value_to_q] whatever the operator, and
    under [choice_queryset_value_to_q] when the operator is [=]; under
    [choice_queryset_value_to_q] any other operator raises
    [AssertionError]. *)
Theorem absent_attr_compiles_to_empty_Q
    self variable_name op v (variable : Variable_) :
  variable_by_name self !! lower variable_name = Some variable →
  attr variable = Attr_None →
  (value_to_q variable = default_value_to_q →
   parse self (single (Binary_operator_statement variable_name op v)) = Ok Q_empty) ∧
  (value_to_q variable = choice_queryset_value_to_q →
   parse self (single (Binary_operator_statement variable_name "=" v)) = Ok Q_empty ∧
   (op ≠ "=" →
    parse self (single (Binary_operator_statement variable_name op v))
    = Raise AssertionError)).
Proof.
  intros Hfound Hattr. rewrite !parse_single. simpl.
  rewrite !(binary_op_as_q_found _ _ _ _ _ Hfound).
  split; intros ->; [|split; [|intros Hop]].
  - unfold default_value_to_q. by rewrite Hattr.
  - unfold choice_queryset_value_to_q. by rewrite Hattr.
  - unfold choice_queryset_value_to_q.
    by rewrite bool_decide_eq_false_2.
Qed.

Lemma absent_attr_compiles_to_empty_Q_witness :
  parse (registry [price_without_attr])
    (single (Binary_operator_statement "price" "<" (V_int 5))) = Ok Q_empty ∧
  parse (registry [city_without_attr])
    (single (Binary_operator_statement "city" "=" (V_StringValue "Oslo"))) = Ok Q_empty ∧
  parse (registry [city_without_attr])
    (single (Binary_operator_statement "city" ":" (V_StringValue "Oslo")))
  = Raise AssertionError.
Proof.
  destruct (absent_attr_compiles_to_empty_Q (registry [price_without_attr])
              "price" "<" (V_int 5) price_without_attr)
    as [Hdefault _]; [vm_compute; reflexivity|reflexivity|].
  destruct (absent_attr_compiles_to_empty_Q (registry [city_without_attr])
              "city" ":" (V_StringValue "Oslo") city_without_attr)
    as [_ Hchoice]; [vm_compute; reflexivity|reflexivity|].
  destruct Hchoice as [Hequal Hother]; [reflexivity|].
  split; [apply Hdefault; reflexivity|].
  split; [exact Hequal|apply Hother; discriminate].
Defined.

(** C10 as stated fails under [choice_queryset_value_to_q] for an
    operator other than [=]: the assertion on the operator comes before
    the test of the attribute. *)
Lemma absent_attr_counterexample :
  variable_by_name (registry [city_without_attr]) !! lower "city"
  = Some city_without_attr ∧
  attr city_without_attr = Attr_None ∧
  ":" ∈ binary_op ∧
  parse (registry [city_without_attr])
    (single (Binary_operator_statement "city" ":" (V_StringValue "Oslo")))
  = Raise AssertionError.
Proof.
  split; [vm_compute; reflexivity|]. split; [reflexivity|].
  split; [by_evaluation|]. vm_compute; reflexivity.
Qed.

(** ** The registry *)

Lemma by_name_snoc vs (variable : Variable_) :
  by_name (vs ++ [variable]) = <[name variable := variable]> (by_name vs).
Proof. unfold by_name. by rewrite foldl_app. Qed.

(** The dictionary comprehension keeps, under each name, the last variable
    declared with it. *)
Lemma by_name_lookup vs n :
  by_name vs !! n = last (filter (λ variable : Variable_, name variable = n) vs).
Proof.
  induction vs as [|variable vs IH] using rev_ind; [done|].
  rewrite by_name_snoc, filter_app, filter_cons, filter_nil.
  destruct (decide (name variable = n)) as [<-|Hne].
  - by rewrite lookup_insert_eq, last_snoc.
  - by rewrite lookup_insert_ne, app_nil_r.
Qed.

Lemma filter_name_NoDup (vs : list Variable_) (variable : Variable_) :
  NoDup ((λ v : Variable_, name v) <$> vs) →
  variable ∈ vs →
  filter (λ v : Variable_, name v = name variable) vs = [variable].
Proof.
  induction vs as [|v vs IH]; intros Hnodup Hin; [by apply elem_of_nil in Hin|].
  rewrite fmap_cons in Hnodup. apply NoDup_cons in Hnodup as [Hfresh Hnodup].
  apply elem_of_cons in Hin as [->|Hin].
  - rewrite filter_cons_True by done. f_equal.
    destruct (filter _ vs) as [|v' rest] eqn:Hfilter; [done|].
    assert (v' ∈ filter (λ v0 : Variable_, name v0 = name v) vs) as Hv'
      by (rewrite Hfilter; left).
    apply list_elem_of_filter in Hv' as [Hname Hv'].
    exfalso. apply Hfresh. rewrite <- Hname.
    apply list_elem_of_fmap. by exists v'.
  - rewrite filter_cons_False; [by apply IH|].
    intros Hname. apply Hfresh. rewrite Hname.
    apply list_elem_of_fmap. by exists variable.
Qed.

(** C5, as amended. Constructing a registry from a list of variables
    raises nothing, whatever their names: under each name the name index
    keeps the last variable declared with it.  For every list with
    pairwise distinct case-insensitive names, every variable is found in
    the name index under its declared name. *)
Theorem registry_keeps_last_of_each_name (l : list Variable_) :
  ∃ self,
    Query_init (Variables_list l) = Ok self ∧
    variables self = l ∧
    (∀ n, variable_by_name self !! n
          = last (filter (λ variable : Variable_, name variable = n) l)) ∧
    (NoDup ((λ variable : Variable_, lower (name variable)) <$> l) →
     ∀ variable : Variable_,
       variable ∈ l → variable_by_name self !! name variable = Some variable).
Proof.
  exists (registry l). split; [reflexivity|]. split; [reflexivity|].
  split; [intros n; apply by_name_lookup|].
  intros Hnodup variable Hin. simpl. rewrite by_name_lookup.
  rewrite filter_name_NoDup; [done| |done].
  change (λ variable0 : Variable_, lower (name variable0))
    with (lower ∘ (λ v : Variable_, name v)) in Hnodup.
  rewrite list_fmap_compose in Hnodup. by apply NoDup_fmap_1 in Hnodup.
Qed.

Lemma registry_keeps_last_of_each_name_witness :
  ∃ self,
    Query_init (Variables_list [cost; Price]) = Ok self ∧
    variable_by_name self !! "Price" = Some Price ∧
    variable_by_name self !! "cost" = Some cost.
Proof.
  destruct (registry_keeps_last_of_each_name [cost; Price])
    as (self & Hinit & _ & _ & Hfound).
  exists self. split; [exact Hinit|].
  assert (NoDup ((λ variable : Variable_, lower (name variable)) <$> [cost; Price]))
    as Hnodup by by_evaluation.
  split.
  - apply (Hfound Hnodup Price). by right; left.
  - apply (Hfound Hnodup cost). by left.
Defined.

(** C5 as stated fails: two variables with the same name are accepted,
    and the second replaces the first in the name index. *)
Lemma duplicate_name_counterexample :
  lower (name first_a) = lower (name second_a) ∧
  Query_init (Variables_list [first_a; second_a]) = Ok (registry [first_a; second_a]) ∧
  variable_by_name (registry [first_a; second_a]) !! "a" = Some second_a.
Proof.
  split; [reflexivity|]. split; [reflexivity|]. vm_compute; reflexivity.
Qed.

(** ** Names with upper case letters *)

(** C6 fails on the code: a variable declared as [Price] is stored under
    the key [Price], the identifier of a statement is looked up in lower
    case, and every spelling of the name raises [Unknown variable]. *)
Lemma declared_upper_case_is_unknown :
  Query_init (Variables_list [Price]) = Ok (registry [Price]) ∧
  parse (registry [Price]) (single (Binary_operator_statement "Price" "=" (V_int 5)))
  = Raise (QueryException (Unknown_variable "Price")) ∧
  parse (registry [Price]) (single (Binary_operator_statement "price" "=" (V_int 5)))
  = Raise (QueryException (Unknown_variable "price")) ∧
  parse (registry [Price]) (single (Binary_operator_statement "PRICE" "=" (V_int 5)))
  = Raise (QueryException (Unknown_variable "PRICE")).
Proof. repeat split; vm_compute; reflexivity. Qed.

(** Where the declared name is in lower case, an identifier in any casing
    finds the variable. *)
Lemma declared_lower_case_is_found (l : list Variable_) (variable : Variable_) n :
  NoDup ((λ v : Variable_, name v) <$> l) →
  variable ∈ l →
  lower n = name variable →
  variable_by_name (registry l) !! lower n = Some variable.
Proof.
  intros Hnodup Hin ->. simpl. rewrite by_name_lookup.
  by rewrite filter_name_NoDup.
Qed.

(** ** Field references *)





(** ** Free text *)

Lemma existsb_freetext_filter (vs : list Variable_) (variable : Variable_) rest :
  filter (λ v : Variable_, freetext v = true) vs = variable :: rest →
  existsb (λ v : Variable_, freetext v) vs = true.
Proof.
  intros Hfilter. apply existsb_exists. exists variable.
  assert (variable ∈ filter (λ v : Variable_, freetext v = true) vs) as Hin
    by (rewrite Hfilter; left).
  apply list_elem_of_filter in Hin as [Hfree Hin].
  split; [by apply list_elem_of_In|done].
Qed.


Lemma mapM_freetext_keys (vs : list Variable_) keys text :
  Forall2 freetext_key vs keys →
  mapM (λ variable : Variable_,
          prefix ← attr_add (attr variable) "__";
          q_op ← op_to_q_op variable ":";
          Ok (Q_kw (prefix +:+ q_op) (V_unicode text))) vs
  = Ok ((λ key, Q_kw key (V_unicode text)) <$> keys).
Proof.
  induction 1 as [|v key vs keys (a & q_op & Hattr & Hop & ->) _ IH]; [done|].
  cbn [mapM]. rewrite IH, Hattr, Hop. reflexivity.
Qed.

(** X16. When every free text variable of the registry has an attribute
    and an operator map that handles [:], and there is at least one such
    variable, a free text statement compiles to the disjunction, in the
    order of declaration, of one predicate per free text variable: the
    attribute compared, under what the operator map gives for [:], with
    the quoted text stripped of its quotes. *)
Theorem freetext_is_disjunction_over_freetext_variables
    self quoted_text key keys :
  Forall2 freetext_key
    (filter (λ variable : Variable_, freetext variable = true) (variables self))
    (key :: keys) →
  parse self (single (Free_text_statement quoted_text))
  = Ok (foldl Q_or
          (Q_kw key (V_unicode (strip dquote quoted_text)))
          ((λ key', Q_kw key' (V_unicode (strip dquote quoted_text))) <$> keys)).
Proof.
  intros Hkeys. rewrite parse_single. unfold operator_statement, freetext_as_q.
  destruct (filter _ (variables self)) as [|variable rest] eqn:Hfilter;
    [by apply Forall2_nil_cons_inv in Hkeys|].
  rewrite (existsb_freetext_filter _ _ _ Hfilter). cbv zeta.
  rewrite (mapM_freetext_keys _ _ _ Hkeys). reflexivity.
Qed.

Lemma freetext_is_disjunction_over_freetext_variables_witness :
  parse (registry [a_text; cost; b_text]) (single (Free_text_statement (quoted "hello")))
  = Ok (Q_or (Q_kw "a__icontains" (V_unicode "hello"))
             (Q_kw "b__icontains" (V_unicode "hello"))).
Proof.
  apply (freetext_is_disjunction_over_freetext_variables
           (registry [a_text; cost; b_text]) (quoted "hello")
           "a__icontains" ["b__icontains"]).
  change (filter _ (variables (registry [a_text; cost; b_text])))
    with [a_text; b_text].
  repeat constructor.
  - exists "a", "icontains". repeat split; vm_compute; reflexivity.
  - exists "b", "icontains". repeat split; vm_compute; reflexivity.
Defined.

(** C7 fails on the code: for a free text variable whose attribute is
    [None], [freetext_as_q] concatenates [None] with a string and the
    free text statement raises [TypeError] instead of compiling to a
    disjunction of predicates, although the registry has a variable
    flagged free text.  A binary statement on the same variable goes
    through the guard of [default_value_to_q] and compiles to [Q()]. *)
Lemma freetext_without_attr_raises_TypeError :
  Query_init (Variables_list [text_without_attr]) = Ok (registry [text_without_attr]) ∧
  existsb (λ v : Variable_, freetext v) (variables (registry [text_without_attr]))
  = true ∧
  attr text_without_attr = Attr_None ∧
  parse (registry [text_without_attr]) (single (Free_text_statement (quoted "hello")))
  = Raise TypeError ∧
  parse (registry [text_without_attr])
    (single (Binary_operator_statement "notes" ":" (V_StringValue "hello")))
  = Ok Q_empty.
Proof. repeat split; vm_compute; reflexivity. Qed.

(** ** Free text without free text variables *)



(** * Further properties *)

(** ** [__to_rpn] on arbitrary items *)

Lemma operands_app items1 items2 :
  operands (items1 ++ items2) = operands items1 ++ operands items2.
Proof. apply omap_app. Qed.

Lemma connectives_app items1 items2 :
  connectives (items1 ++ items2) = connectives items1 ++ connectives items2.
Proof. apply omap_app. Qed.

Lemma connectives_Item_str s :
  is_Some (PRECEDENCE !! s) → connectives [Item_str s] = [s].
Proof.
  intros Hs. unfold connectives. cbn [omap list_omap].
  by rewrite bool_decide_eq_true_2.
Qed.

Lemma connectives_Item_str_None s :
  PRECEDENCE !! s = None → connectives [Item_str s] = [].
Proof.
  intros Hs. unfold connectives. cbn [omap list_omap].
  rewrite bool_decide_eq_false_2; [done|]. rewrite Hs. by intros [? ?].
Qed.

Lemma operands_stack (stack : list (string * Z)) :
  operands ((λ entry, Item_str entry.1) <$> stack) = [].
Proof. by induction stack. Qed.

Lemma connectives_stack (stack : list (string * Z)) :
  Forall (λ entry, is_Some (PRECEDENCE !! entry.1)) stack →
  connectives ((λ entry, Item_str entry.1) <$> stack) = fst <$> stack.
Proof.
  induction 1 as [|[s p] stack Hs _ IH]; [done|].
  rewrite !fmap_cons.
  change (Item_str (s, p).1 :: ((λ entry, Item_str entry.1) <$> stack))
    with ([Item_str s] ++ ((λ entry : string * Z, Item_str entry.1) <$> stack)).
  by rewrite connectives_app, connectives_Item_str, IH.
Qed.

Lemma connectives_only_stack (stack : list (string * Z)) :
  Forall (λ entry, is_Some (PRECEDENCE !! entry.1)) stack →
  connectives_only ((λ entry, Item_str entry.1) <$> stack).
Proof. induction 1; by constructor. Qed.

(** The loop that pops operators moves them to the output and changes
    nothing else. *)
Lemma pop_operators_invariant p1 stack result_q :
  Forall (λ entry, is_Some (PRECEDENCE !! entry.1)) stack →
  connectives_only result_q →
  Forall (λ entry, is_Some (PRECEDENCE !! entry.1)) (pop_operators p1 stack result_q).1 ∧
  connectives_only (pop_operators p1 stack result_q).2 ∧
  operands (pop_operators p1 stack result_q).2 = operands result_q ∧
  connectives (pop_operators p1 stack result_q).2
    ++ (fst <$> (pop_operators p1 stack result_q).1)
  ≡ₚ connectives result_q ++ (fst <$> stack).
Proof.
  intros Hstack. revert result_q.
  induction Hstack as [|[t2 p2] stack Ht2 Hstack IH]; intros result_q Hresult; [done|].
  simpl. destruct (bool_decide (p1 ≤ p2)%Z); [|by repeat split; [constructor|..]].
  destruct (IH (result_q ++ [Item_str t2])) as (H1 & H2 & H3 & H4).
  { apply Forall_app. split; [done|]. by repeat constructor. }
  split; [done|]. split; [done|]. split.
  - rewrite H3, operands_app. apply app_nil_r.
  - rewrite H4, connectives_app, connectives_Item_str by done.
    rewrite <- app_assoc. reflexivity.
Qed.

Lemma to_rpn_step_invariant result_q stack token :
  Forall (λ entry, is_Some (PRECEDENCE !! entry.1)) stack →
  connectives_only result_q →
  Forall (λ entry, is_Some (PRECEDENCE !! entry.1))
    (to_rpn_step (result_q, stack) token).2 ∧
  connectives_only (to_rpn_step (result_q, stack) token).1 ∧
  operands (to_rpn_step (result_q, stack) token).1
  = operands result_q ++ operands [token] ∧
  connectives (to_rpn_step (result_q, stack) token).1
    ++ (fst <$> (to_rpn_step (result_q, stack) token).2)
  ≡ₚ (connectives result_q ++ (fst <$> stack)) ++ connectives [token].
Proof.
  intros Hstack Hresult. destruct token as [q|s].
  - simpl. split; [done|]. split; [apply Forall_app; by repeat constructor|].
    split; [by rewrite operands_app|].
    rewrite connectives_app. cbn. by rewrite !app_nil_r.
  - unfold to_rpn_step. destruct (PRECEDENCE !! s) as [p1|] eqn:Hs.
    + rewrite connectives_Item_str by (by rewrite Hs).
      destruct (pop_operators_invariant p1 stack result_q Hstack Hresult)
        as (H1 & H2 & H3 & H4).
      destruct (pop_operators p1 stack result_q) as [stack' result_q'].
      cbn [fst snd] in *.
      split; [constructor; [cbn [fst]; rewrite Hs; by eexists|done]|]. split; [done|].
      split; [by rewrite H3, app_nil_r|].
      rewrite fmap_cons. cbn [fst].
      rewrite <- H4, <- app_assoc.
      apply Permutation_app_head. apply Permutation_cons_append.
    + rewrite (connectives_Item_str_None _ Hs). cbn [fst snd].
      split; [done|]. split; [done|]. by rewrite !app_nil_r.
Qed.

Lemma to_rpn_loop_invariant tokens : ∀ result_q stack,
  Forall (λ entry, is_Some (PRECEDENCE !! entry.1)) stack →
  connectives_only result_q →
  Forall (λ entry, is_Some (PRECEDENCE !! entry.1))
    (foldl to_rpn_step (result_q, stack) tokens).2 ∧
  connectives_only (foldl to_rpn_step (result_q, stack) tokens).1 ∧
  operands (foldl to_rpn_step (result_q, stack) tokens).1
  = operands result_q ++ operands tokens ∧
  connectives (foldl to_rpn_step (result_q, stack) tokens).1
    ++ (fst <$> (foldl to_rpn_step (result_q, stack) tokens).2)
  ≡ₚ (connectives result_q ++ (fst <$> stack)) ++ connectives tokens.
Proof.
  induction tokens as [|token tokens IH]; intros result_q stack Hstack Hresult.
  - simpl. by rewrite !app_nil_r.
  - cbn [foldl].
    destruct (to_rpn_step_invariant result_q stack token Hstack Hresult)
      as (H1 & H2 & H3 & H4).
    destruct (to_rpn_step (result_q, stack) token) as [result_q' stack'].
    cbn [fst snd] in *.
    destruct (IH result_q' stack' H1 H2) as (H5 & H6 & H7 & H8).
    split; [done|]. split; [done|]. split.
    + by rewrite H7, H3, <- app_assoc, <- operands_app.
    + by rewrite H8, H4, <- !app_assoc, <- connectives_app.
Qed.

(** When [__to_rpn] does not return its argument, its result has the
    operands of the argument in their order, its connectives in some
    order, and no other string. *)
Lemma to_rpn_general tokens :
  length tokens ≠ 1%nat →
  connectives_only (to_rpn tokens) ∧
  operands (to_rpn tokens) = operands tokens ∧
  connectives (to_rpn tokens) ≡ₚ connectives tokens.
Proof.
  intros Hlength. unfold to_rpn. rewrite bool_decide_eq_false_2 by done.
  destruct (to_rpn_loop_invariant tokens [] []) as (H1 & H2 & H3 & H4);
    [by constructor|by constructor|].
  destruct (foldl to_rpn_step ([], []) tokens) as [result_q stack].
  cbn [fst snd] in *. split; [|split].
  - apply Forall_app. split; [done|]. by apply connectives_only_stack.
  - by rewrite operands_app, operands_stack, app_nil_r, H3.
  - by rewrite connectives_app, connectives_stack, H4.
Qed.

(** X1. [__to_rpn] only reorders: for every sequence of items, the [Q]
    objects of the result are those of the argument in the same order,
    and the connectives of the result are those of the argument. *)
Theorem to_rpn_keeps_operands_and_connectives (tokens : list item) :
  operands (to_rpn tokens) = operands tokens ∧
  connectives (to_rpn tokens) ≡ₚ connectives tokens.
Proof.
  destruct (decide (length tokens = 1%nat)) as [Hone|Hlength].
  - unfold to_rpn. by rewrite bool_decide_eq_true_2.
  - by destruct (to_rpn_general tokens Hlength) as (_ & ? & ?).
Qed.

(** ** [__rpn_to_q] and [compile] on arbitrary tokens *)

Lemma rpn_loop_count tokens : ∀ stack stack',
  connectives_only tokens →
  rpn_loop stack tokens = Ok stack' →
  (length stack' + length (connectives tokens) = length stack + length (operands tokens))%nat.
Proof.
  induction tokens as [|each tokens IH]; intros stack stack' Honly Hloop.
  - simpl in *. injection Hloop as <-. lia.
  - apply Forall_cons in Honly as [Heach Honly].
    change (each :: tokens) with ([each] ++ tokens).
    rewrite connectives_app, operands_app, !length_app.
    destruct each as [q|op].
    + simpl in Hloop. apply (IH _ _ Honly) in Hloop. simpl in *. lia.
    + rewrite connectives_Item_str by done.
      simpl in Hloop. destruct stack as [|right_ [|left_ stack]]; try done.
      apply (IH _ _ Honly) in Hloop. simpl in *. lia.
Qed.

Lemma rpn_to_q_count tokens q :
  connectives_only tokens →
  rpn_to_q tokens = Ok q →
  length (operands tokens) = S (length (connectives tokens)).
Proof.
  intros Honly Hq. unfold rpn_to_q in Hq.
  destruct (rpn_loop [] tokens) as [stack|] eqn:Hloop; [|done].
  apply (rpn_loop_count _ _ _ Honly) in Hloop.
  destruct stack as [|q' [|? ?]]; try done; simpl in *; lia.
Qed.

Lemma rpn_to_q_to_rpn_count items q :
  rpn_to_q (to_rpn items) = Ok q →
  length (operands items) = S (length (connectives items)).
Proof.
  intros Hq. destruct (decide (length items = 1%nat)) as [Hone|Hlength].
  - by destruct items as [|[q'|s] [|? ?]].
  - destruct (to_rpn_general items Hlength) as (Honly & Hoperands & Hconnectives).
    apply (rpn_to_q_count _ _ Honly) in Hq.
    by rewrite <- Hoperands, <- Hconnectives.
Qed.

(** X2. [compile] returns a predicate only for tokens that give one
    operand more than connectives; otherwise it raises. *)
Theorem compile_needs_one_operand_more_than_connectives tokens q :
  compile tokens = Ok q →
  ∃ items,
    compile_items tokens = Ok items ∧
    length (operands items) = S (length (connectives items)).
Proof.
  unfold compile. intros Hq.
  destruct (compile_items tokens) as [items|] eqn:Hitems; [|done].
  exists items. split; [done|]. by apply (rpn_to_q_to_rpn_count items q).
Qed.

Lemma compile_needs_one_operand_more_than_connectives_witness :
  ∃ items,
    compile_items [Tok_Q Q_empty; Tok_str "or"; Tok_ParseResults [Tok_Q Q_empty]]
    = Ok items ∧
    length (operands items) = S (length (connectives items)).
Proof.
  apply (compile_needs_one_operand_more_than_connectives
           [Tok_Q Q_empty; Tok_str "or"; Tok_ParseResults [Tok_Q Q_empty]]
           (Q_or Q_empty Q_empty)).
  vm_compute; reflexivity.
Defined.

(** What [compile] raises on the smallest ill-formed token lists. *)
Example compile_nothing : compile [] = Raise AssertionError.
Proof. reflexivity. Qed.

Example compile_trailing_connective (q : Q) :
  compile [Tok_Q q; Tok_str "and"] = Raise IndexError.
Proof. vm_compute; reflexivity. Qed.

Example compile_missing_connective (q1 q2 : Q) :
  compile [Tok_Q q1; Tok_Q q2] = Raise AssertionError.
Proof. vm_compute; reflexivity. Qed.

Lemma compile_items_app tokens1 tokens2 :
  compile_items (tokens1 ++ tokens2) =
  items1 ← compile_items tokens1; items2 ← compile_items tokens2; Ok (items1 ++ items2).
Proof.
  induction tokens1 as [|tok tokens1 IH]; simpl.
  - by destruct (compile_items tokens2).
  - destruct (compile_token tok) as [new|]; [|done]. simpl. rewrite IH.
    destruct (compile_items tokens1) as [items1|]; [|done]. simpl.
    destruct (compile_items tokens2) as [items2|]; [|done]. simpl.
    by rewrite app_assoc.
Qed.

(** X3. [compile] passes over every string token other than ['and'] and
    ['or'], wherever it stands. *)
Theorem compile_skips_other_strings tokens1 tokens2 s :
  s ∉ ["and"; "or"] →
  compile (tokens1 ++ Tok_str s :: tokens2) = compile (tokens1 ++ tokens2).
Proof.
  intros Hs. unfold compile. f_equal.
  rewrite !compile_items_app. cbn [compile_items compile_token].
  rewrite bool_decide_eq_false_2 by done. simpl.
  destruct (compile_items tokens1); [|done]. simpl.
  by destruct (compile_items tokens2).
Qed.

Lemma compile_skips_other_strings_witness :
  compile ([Tok_Q Q_empty] ++ Tok_str ")" :: [Tok_str "or"; Tok_Q Q_empty])
  = compile ([Tok_Q Q_empty] ++ [Tok_str "or"; Tok_Q Q_empty]).
Proof.
  apply (compile_skips_other_strings [Tok_Q Q_empty] [Tok_str "or"; Tok_Q Q_empty] ")").
  by_evaluation.
Defined.

(** X4. A nested [ParseResults] is compiled on its own and stands as one
    operand among the tokens around it: when the tokens before it
    compile, it can be replaced by the [Q] it compiles to. *)
Theorem compile_nested_results tokens1 inner tokens2 items1 q :
  compile_items tokens1 = Ok items1 →
  compile inner = Ok q →
  compile (tokens1 ++ Tok_ParseResults inner :: tokens2)
  = compile (tokens1 ++ Tok_Q q :: tokens2).
Proof.
  intros Hitems Hinner. unfold compile. f_equal.
  rewrite !compile_items_app, Hitems. cbn [compile_items].
  by rewrite compile_token_ParseResults, Hinner.
Qed.

Lemma compile_nested_results_witness :
  compile ([Tok_Q Q_empty; Tok_str "and"]
           ++ Tok_ParseResults [Tok_Q Q_empty; Tok_str "or"; Tok_Q Q_empty] :: [])
  = compile ([Tok_Q Q_empty; Tok_str "and"] ++ Tok_Q (Q_or Q_empty Q_empty) :: []).
Proof.
  apply (compile_nested_results [Tok_Q Q_empty; Tok_str "and"]
           [Tok_Q Q_empty; Tok_str "or"; Tok_Q Q_empty] []
           [Item_Q Q_empty; Item_str "and"] (Q_or Q_empty Q_empty));
    vm_compute; reflexivity.
Defined.

(** ** Whole queries *)

Lemma first_raise_app {A B} (action : A → exc B) l1 l2 :
  first_raise action (l1 ++ l2) =
  match first_raise action l1 with
  | Some err => Some err
  | None => first_raise action l2
  end.
Proof.
  induction l1 as [|a l1 IH]; simpl; [done|]. by destruct (action a).
Qed.

Lemma run_actions_more_raised {A B} (action : A → exc B) more :
  Forall (λ entry : connective * where_condition A,
            raised (run_actions action entry.2)
            = first_raise action (statements entry.2)) more →
  raised (run_actions_more action more) = first_raise action (statements_more more).
Proof.
  induction 1 as [|[k c] more Hc _ IH]; simpl in *; [done|].
  rewrite first_raise_app, <- Hc, <- IH.
  destruct (run_actions action c); simpl; [|done].
  by destruct (run_actions_more action more).
Qed.

Lemma run_actions_raised {A B} (action : A → exc B) c :
  raised (run_actions action c) = first_raise action (statements c).
Proof.
  induction c as [a|first more IHfirst IHmore] using where_condition_ind.
  - simpl. by destruct (action a).
  - rewrite run_actions_Parenthesized, statements_Parenthesized, first_raise_app.
    apply run_actions_more_raised in IHmore. rewrite <- IHfirst, <- IHmore.
    destruct (run_actions action first); simpl; [|done].
    by destruct (run_actions_more action more).
Qed.

(** X5. The exception that [parse] raises on a matched query is the
    exception of the leftmost statement whose parse action raises; when
    no parse action raises, [parse] returns a predicate. *)
Theorem parse_raises_what_the_first_failing_statement_raises self e :
  raised (parse self (Match e))
  = first_raise (operator_statement self) (statements_expression e).
Proof.
  rewrite parse_Match. destruct e as [first more].
  unfold run_actions_expression, statements_expression. cbn [fst snd].
  rewrite first_raise_app, <- run_actions_raised.
  rewrite <- (run_actions_more_raised _ more)
    by (apply Forall_forall; intros; apply run_actions_raised).
  destruct (run_actions (operator_statement self) first); simpl; [|done].
  by destruct (run_actions_more (operator_statement self) more).
Qed.

(** X6. Parentheses around a whole query change nothing. *)
Theorem parse_parenthesized_query self first more :
  parse self (Match (Parenthesized first more, []))
  = parse self (Match (first, more)).
Proof.
  rewrite !parse_Match. unfold run_actions_expression. cbn [fst snd].
  rewrite run_actions_Parenthesized.
  destruct (run_actions (operator_statement self) first); simpl; [|done].
  by destruct (run_actions_more (operator_statement self) more).
Qed.

Lemma conjunctions_And_chain q qs :
  conjunctions q ((λ q', (And, q')) <$> qs) = (foldl Q_and q qs, []).
Proof. revert q. induction qs as [|q' qs IH]; intros q; simpl; [done|]. apply IH. Qed.

Lemma conjunctions_Or_chain q qs :
  conjunctions q ((λ q', (Or, q')) <$> qs) = (q, qs).
Proof.
  revert q. induction qs as [|q' qs IH]; intros q; simpl; [done|]. by rewrite IH.
Qed.

(** X7. Statements joined by ['and'] alone compile to their conjunction
    nested to the left, in the order of the query, and statements joined
    by ['or'] alone to their disjunction nested to the left. *)
Theorem compile_chain (q : Q) (qs : list Q) :
  compile (query_statement_tokens (Statement q, (λ q', (And, Statement q')) <$> qs))
  = Ok (foldl Q_and q qs) ∧
  compile (query_statement_tokens (Statement q, (λ q', (Or, Statement q')) <$> qs))
  = Ok (foldl Q_or q qs).
Proof.
  rewrite !compile_query_statement. unfold reading_expression. cbn [fst snd reading].
  rewrite <- !list_fmap_compose. unfold and_before_or.
  split.
  - change ((λ entry : connective * where_condition Q, (entry.1, reading entry.2))
            ∘ (λ q', (And, Statement q'))) with (λ q' : Q, (And, q')).
    by rewrite conjunctions_And_chain.
  - change ((λ entry : connective * where_condition Q, (entry.1, reading entry.2))
            ∘ (λ q', (Or, Statement q'))) with (λ q' : Q, (Or, q')).
    by rewrite conjunctions_Or_chain.
Qed.

(** ** Names *)

(** X8. A binary statement whose identifier, in lower case, is no key of
    the name index raises [QueryException] with the message [Unknown
    variable "..."] that carries the identifier as written, whatever the
    operator and the value; no query that contains the statement compiles
    to a predicate. *)
Theorem unknown_variable_raises self variable_name op v :
  variable_by_name self !! lower variable_name = None →
  parse self (single (Binary_operator_statement variable_name op v))
  = Raise (QueryException (Unknown_variable variable_name)) ∧
  (∀ e, Binary_operator_statement variable_name op v ∈ statements_expression e →
        ∃ err, parse self (Match e) = Raise err).
Proof.
  intros Hnone.
  assert (operator_statement self (Binary_operator_statement variable_name op v)
          = Raise (QueryException (Unknown_variable variable_name))) as Haction.
  { simpl. unfold binary_op_as_q. by rewrite Hnone. }
  split; [by rewrite parse_single|].
  intros e Hin.
  destruct (parse_raises_with_statement _ _ _ _ Hin Haction) as (err & Hraise & _).
  by exists err.
Qed.

Lemma unknown_variable_raises_witness :
  parse price_registry (single (Binary_operator_statement "Bogus" "=" (V_int 1)))
  = Raise (QueryException (Unknown_variable "Bogus")).
Proof.
  apply (unknown_variable_raises price_registry "Bogus" "=" (V_int 1)).
  vm_compute; reflexivity.
Defined.

Lemma ascii_lower_idempotent c : ascii_lower (ascii_lower c) = ascii_lower c.
Proof. destruct c as [[] [] [] [] [] [] [] []]; reflexivity. Qed.

Lemma lower_idempotent s : lower (lower s) = lower s.
Proof.
  induction s as [|c s IH]; simpl; [done|]. by rewrite ascii_lower_idempotent, IH.
Qed.

(** X9. In a registry built from variables with pairwise distinct names,
    a variable whose declared name is in lower case is the one that a
    binary statement resolves to under every spelling of the name that
    differs from it in case only: the statement compiles to what the
    [value_to_q] of that variable returns, exactly as under the declared
    spelling. *)
Theorem lower_case_name_is_found_in_any_case
    (l : list Variable_) (variable : Variable_) variable_name op v :
  NoDup ((λ v : Variable_, name v) <$> l) →
  variable ∈ l →
  lower variable_name = name variable →
  parse (registry l) (single (Binary_operator_statement variable_name op v))
  = (result ← value_to_q variable variable op (value_string_or_f (registry l) v);
     match result with
     | None =>
         Raise (QueryException
                  (Unknown_value_for_variable (value_string_or_f (registry l) v)
                     (name variable)))
     | Some q => Ok q
     end) ∧
  parse (registry l) (single (Binary_operator_statement variable_name op v))
  = parse (registry l) (single (Binary_operator_statement (name variable) op v)).
Proof.
  intros Hnodup Hin Hname.
  pose proof (declared_lower_case_is_found l variable variable_name Hnodup Hin Hname)
    as Hfound.
  assert (variable_by_name (registry l) !! lower (name variable) = Some variable)
    as Hfound' by (by rewrite <- Hname, lower_idempotent).
  rewrite !parse_single. simpl.
  by rewrite (binary_op_as_q_found _ _ _ _ _ Hfound),
             (binary_op_as_q_found _ _ _ _ _ Hfound').
Qed.

Lemma lower_case_name_is_found_in_any_case_witness :
  parse (registry [cost; a_text])
    (single (Binary_operator_statement "COST" "<" (V_int 3)))
  = parse (registry [cost; a_text])
      (single (Binary_operator_statement "cost" "<" (V_int 3))).
Proof.
  apply (lower_case_name_is_found_in_any_case [cost; a_text] cost "COST" "<" (V_int 3)).
  - by_evaluation.
  - by left.
  - reflexivity.
Defined.

(** ** The default [value_to_q] *)

Lemma default_value_to_q_raises variable op v err :
  default_value_to_q variable op v = Raise err →
  err = TypeError ∨ ∃ op', op_to_q_op variable op' = Raise err.
Proof.
  unfold default_value_to_q.
  destruct (attr variable) as [| |a]; [| done |].
  - destruct (bool_decide (_ = Some "null")); simpl; intros [= <-]; by left.
  - destruct (bool_decide (_ = Some "null")); simpl; [done|].
    destruct (op_to_q_op variable _) as [q_op|err'] eqn:Hop; simpl; [done|].
    intros [= <-]. right. eauto.
Qed.

Lemma default_value_to_q_not_None variable op v :
  default_value_to_q variable op v ≠ Ok None.
Proof.
  unfold default_value_to_q.
  destruct (attr variable) as [| |a]; [| done |].
  - by destruct (bool_decide (_ = Some "null")).
  - destruct (bool_decide (_ = Some "null")); simpl; [done|].
    by destruct (op_to_q_op variable _).
Qed.

(** X10. For a variable with the default [value_to_q], a binary statement
    never raises the [Unknown value] exception of [binary_op_as_q]: it
    compiles to a predicate, or raises [TypeError] (an attribute that is
    no string), or raises what the operator map of the variable raises. *)
Theorem default_value_to_q_is_never_unresolved
    self variable_name op v (variable : Variable_) :
  variable_by_name self !! lower variable_name = Some variable →
  value_to_q variable = default_value_to_q →
  default_value_to_q variable op (value_string_or_f self v) ≠ Ok None ∧
  match parse self (single (Binary_operator_statement variable_name op v)) with
  | Ok _ => True
  | Raise err => err = TypeError ∨ ∃ op', op_to_q_op variable op' = Raise err
  end.
Proof.
  intros Hfound Hdefault. split; [apply default_value_to_q_not_None|].
  rewrite parse_single. simpl.
  rewrite (binary_op_as_q_found _ _ _ _ _ Hfound), Hdefault.
  pose proof (default_value_to_q_not_None variable op (value_string_or_f self v)) as Hnot.
  destruct (default_value_to_q variable op (value_string_or_f self v))
    as [[q|]|err] eqn:Hvalue; simpl; [done|done|].
  by apply (default_value_to_q_raises _ _ _ _ Hvalue).
Qed.

Lemma default_value_to_q_is_never_unresolved_witness :
  match parse (registry [declared_without_attr])
          (single (Binary_operator_statement "" "=" (V_int 1))) with
  | Ok _ => True
  | Raise err =>
      err = TypeError ∨ ∃ op', op_to_q_op declared_without_attr op' = Raise err
  end.
Proof.
  apply (default_value_to_q_is_never_unresolved (registry [declared_without_attr])
           "" "=" (V_int 1) declared_without_attr);
    [vm_compute; reflexivity|reflexivity].
Defined.

Lemma default_op_to_q_op_handles_binary_op op :
  op ∈ binary_op →
  ∃ q_op,
    default_op_to_q_op (if bool_decide (op ∈ ["!="; "!:"]) then tail op else op)
    = Ok q_op.
Proof.
  unfold binary_op. intros Hop.
  repeat (apply elem_of_cons in Hop as [->|Hop];
          [eexists; vm_compute; reflexivity|]).
  by apply elem_of_nil in Hop.
Qed.

Lemma case_sensitive_op_to_q_op_handles_binary_op op :
  op ∈ binary_op →
  ∃ q_op,
    case_sensitive_op_to_q_op (if bool_decide (op ∈ ["!="; "!:"]) then tail op else op)
    = Ok q_op.
Proof.
  unfold binary_op. intros Hop.
  repeat (apply elem_of_cons in Hop as [->|Hop];
          [eexists; vm_compute; reflexivity|]).
  by apply elem_of_nil in Hop.
Qed.

(** X11. The default operator map and the map of [Variable.case_sensitive]
    handle every operator of the grammar, the negated ones through their
    base operator: for a variable with a string attribute, the default
    [value_to_q] and one of these maps, a binary statement compiles to a
    predicate whatever the operator of the grammar and the value. *)
Theorem binary_op_is_handled self variable_name op v (variable : Variable_) a :
  variable_by_name self !! lower variable_name = Some variable →
  value_to_q variable = default_value_to_q →
  op_to_q_op variable = default_op_to_q_op
  ∨ op_to_q_op variable = case_sensitive_op_to_q_op →
  attr variable = Attr_str a →
  op ∈ binary_op →
  ∃ q, parse self (single (Binary_operator_statement variable_name op v)) = Ok q.
Proof.
  intros Hfound Hdefault Hmap Hattr Hop. rewrite parse_single. simpl.
  rewrite (binary_op_as_q_found _ _ _ _ _ Hfound), Hdefault.
  unfold default_value_to_q. rewrite Hattr.
  destruct (bool_decide (_ = Some "null")); simpl; [by eexists|].
  assert (∃ q_op, op_to_q_op variable
                    (if bool_decide (op ∈ ["!="; "!:"]) then tail op else op)
                  = Ok q_op) as [q_op ->].
  { destruct Hmap as [-> | ->];
      [by apply default_op_to_q_op_handles_binary_op
      |by apply case_sensitive_op_to_q_op_handles_binary_op]. }
  by eexists.
Qed.

Lemma binary_op_is_handled_witness :
  ∃ q, parse price_registry
         (single (Binary_operator_statement "price" "=<" (V_float "2.5"))) = Ok q.
Proof.
  apply (binary_op_is_handled price_registry "price" "=<" (V_float "2.5")
           (Variable_text "price" (Attr_str "price") false) "price").
  - vm_compute; reflexivity.
  - reflexivity.
  - by left.
  - reflexivity.
  - by_evaluation.
Defined.

(** ** Reference lookups *)

(** X12. For a variable with [choice_queryset_value_to_q], a string
    attribute, a model and a lookup field, the statement with [=]
    compiles according to what the lookup of the value finds: one row
    gives the comparison of [attr__pk] with the key of the row, no row
    gives the [Unknown value] exception, and several rows give
    [MultipleObjectsReturned], which is not caught. *)
Theorem choice_queryset_compiles_by_lookup
    self variable_name v (variable : Variable_) a m lookup :
  variable_by_name self !! lower variable_name = Some variable →
  value_to_q variable = choice_queryset_value_to_q →
  attr variable = Attr_str a →
  model variable = Some m →
  value_to_q_lookup variable = Some lookup →
  parse self (single (Binary_operator_statement variable_name "=" v))
  = match objects_get m lookup (value_string_or_f self v) with
    | Get_instance pk => Ok (Q_kw (a +:+ "__pk") pk)
    | Get_ObjectDoesNotExist =>
        Raise (QueryException
                 (Unknown_value_for_variable (value_string_or_f self v) (name variable)))
    | Get_MultipleObjectsReturned => Raise MultipleObjectsReturned
    end.
Proof.
  intros Hfound Hchoice Hattr Hmodel Hlookup. rewrite parse_single. simpl.
  rewrite (binary_op_as_q_found _ _ _ _ _ Hfound), Hchoice.
  unfold choice_queryset_value_to_q. rewrite Hattr, Hmodel, Hlookup. simpl.
  by destruct (objects_get m lookup (value_string_or_f self v)).
Qed.

Lemma choice_queryset_compiles_by_lookup_witness :
  parse (registry [Variable_choice_queryset "city" (Attr_str "town") one_row_table])
    (single (Binary_operator_statement "city" "=" (V_StringValue "Oslo")))
  = Ok (Q_kw "town__pk" (V_int 7)) ∧
  parse (registry [Variable_choice_queryset "city" (Attr_str "town") ambiguous_table])
    (single (Binary_operator_statement "city" "=" (V_StringValue "Oslo")))
  = Raise MultipleObjectsReturned.
Proof.
  split.
  - apply (choice_queryset_compiles_by_lookup
             (registry [Variable_choice_queryset "city" (Attr_str "town") one_row_table])
             "city" (V_StringValue "Oslo")
             (Variable_choice_queryset "city" (Attr_str "town") one_row_table)
             "town" one_row_table "name");
      [vm_compute; reflexivity|reflexivity..].
  - apply (choice_queryset_compiles_by_lookup
             (registry [Variable_choice_queryset "city" (Attr_str "town") ambiguous_table])
             "city" (V_StringValue "Oslo")
             (Variable_choice_queryset "city" (Attr_str "town") ambiguous_table)
             "town" ambiguous_table "name");
      [vm_compute; reflexivity|reflexivity..].
Defined.

(** ** Quotes *)

Lemma endswith_quote_snoc s : endswith_quote (s +:+ String dquote "") = true.
Proof.
  induction s as [|c s IH]; [done|].
  change (String c s +:+ String dquote "") with (String c (s +:+ String dquote "")).
  cbn [endswith_quote]. rewrite IH. by destruct (s +:+ String dquote "").
Qed.

Lemma drop_last_snoc s c : drop_last (s +:+ String c "") = s.
Proof.
  induction s as [|a s IH]; [done|].
  change (String a s +:+ String c "") with (String a (s +:+ String c "")).
  cbn [drop_last]. rewrite IH. by destruct s.
Qed.

Lemma StringValue_quoted text :
  StringValue (String dquote (text +:+ String dquote "")) = V_StringValue text.
Proof.
  unfold StringValue. cbn [startswith_quote tail].
  change (endswith_quote (String dquote (text +:+ String dquote "")))
    with (endswith_quote (String dquote text +:+ String dquote "")).
  rewrite endswith_quote_snoc, drop_last_snoc. reflexivity.
Qed.

(** X13. A text that [value_to_query_string_value_string] renders, read
    back by [StringValue], is the text itself, whatever characters it
    has. *)
Theorem StringValue_of_rendered_text text :
  StringValue (value_to_query_string_value_string (FV_other text))
  = V_StringValue text.
Proof. apply StringValue_quoted. Qed.

Lemma rstrip_snoc c s : rstrip c (s +:+ String c "") = rstrip c s.
Proof.
  induction s as [|a s IH].
  - simpl. by rewrite Ascii.eqb_refl.
  - change (String a s +:+ String c "") with (String a (s +:+ String c "")).
    cbn [rstrip]. by rewrite IH.
Qed.

Lemma strip_cons c s : strip c (String c s) = strip c s.
Proof. unfold strip. simpl. by rewrite Ascii.eqb_refl. Qed.

Lemma strip_snoc c s : strip c (s +:+ String c "") = strip c s.
Proof.
  unfold strip. induction s as [|a s IH].
  - simpl. by rewrite Ascii.eqb_refl.
  - change (String a s +:+ String c "") with (String a (s +:+ String c "")).
    cbn [lstrip]. destruct (Ascii.eqb a c); [exact IH|].
    change (String a (s +:+ String c "")) with (String a s +:+ String c "").
    apply rstrip_snoc.
Qed.

(** X14. [freetext_as_q] takes its token up to the double quotes at its
    two ends: one more pair of quotes around the token changes nothing in
    what the statement compiles to. *)
Theorem freetext_ignores_surrounding_quotes self token :
  parse self (single (Free_text_statement (String dquote (token +:+ String dquote ""))))
  = parse self (single (Free_text_statement token)).
Proof.
  assert (strip dquote (String dquote (token +:+ String dquote ""))
          = strip dquote token) as Hstrip.
  { change (String dquote (token +:+ String dquote ""))
      with (String dquote token +:+ String dquote "").
    by rewrite strip_snoc, strip_cons. }
  rewrite !parse_single. unfold operator_statement, freetext_as_q.
  cbn [head default from_option length id]. by rewrite Hstrip.
Qed.

(** ** The declarative case of [Query.__init__] *)

Lemma merged_name_names (items : list (string * Variable_)) :
  (λ v : Variable_, name v)
    <$> ((λ item : string * Variable_, merged_name item.2 item.1) <$> items)
  = fst <$> items.
Proof. induction items as [|[n v] items IH]; [done|]. rewrite !fmap_cons, IH. done. Qed.

(** X15. From the items of a dictionary with pairwise distinct keys,
    [Query.__init__] registers every variable under its key: the name
    index gives, under the key, the variable renamed to the key, whose
    attribute is the key when the variable was declared without one and a
    non-empty key, and the declared attribute otherwise. *)
Theorem declarative_registry (items : list (string * Variable_)) :
  NoDup (fst <$> items) →
  ∃ self,
    Query_init (Variables_dict items) = Ok self ∧
    ∀ n (variable : Variable_),
      (n, variable) ∈ items →
      variable_by_name self !! n = Some (merged_name variable n) ∧
      name (merged_name variable n) = n ∧
      (attr variable = Attr_MISSING → n ≠ "" →
       attr (merged_name variable n) = Attr_str n) ∧
      (attr variable ≠ Attr_MISSING →
       attr (merged_name variable n) = attr variable).
Proof.
  intros Hnodup. eexists. split; [reflexivity|].
  intros n variable Hin. split; [|split; [reflexivity|split]].
  - cbn [variable_by_name]. rewrite by_name_lookup.
    change n with (name (merged_name variable n)) at 1.
    rewrite filter_name_NoDup; [done|by rewrite merged_name_names|].
    apply list_elem_of_fmap. by exists (n, variable).
  - intros Hattr Hn. simpl. rewrite Hattr. by rewrite bool_decide_eq_false_2.
  - intros Hattr. simpl. by destruct (attr variable).
Qed.

Lemma declarative_registry_witness :
  ∃ self,
    Query_init (Variables_dict [("make", declared_without_attr); ("model", cost)])
    = Ok self ∧
    variable_by_name self !! "make" = Some (merged_name declared_without_attr "make") ∧
    attr (merged_name declared_without_attr "make") = Attr_str "make" ∧
    attr (merged_name cost "model") = Attr_str "cost".
Proof.
  destruct (declarative_registry [("make", declared_without_attr); ("model", cost)])
    as (self & Hinit & Hitems); [by_evaluation|].
  exists self. split; [exact Hinit|].
  destruct (Hitems "make" declared_without_attr) as (Hfound & _ & Hattr & _);
    [by left|].
  destruct (Hitems "model" cost) as (_ & _ & _ & Hkept); [by right; left|].
  split; [exact Hfound|]. split; [by apply Hattr|by apply Hkept].
Defined.
